(** * LLM-Scheduler: the task-scheduling engine

    A shallow embedding of the Go back end of LLM-Scheduler:

    - [backend/queue/manager.go]      the priority queue manager (module [queue]),
    - [backend/models/*.go]           task, model and log rows (module [models]),
    - [backend/services/*.go]         the task and model services (module [services]),
    - [backend/worker/worker.go]      the worker (module [worker]).

    Go packages become Rocq modules and keep the names of their functions.
    The three stores are explicit state: the Redis key space is a record of
    three lists and two sorted sets, the MySQL tables are finite maps from
    primary key to row.  Every function threads the stores it touches and
    returns the Go error next to them.

    What is left out: logging through logrus, [time.Sleep], the [updated_at]
    columns, and the preloaded associations of a row.  The relational store
    is taken to answer every statement; the key-value store may stop
    answering (see [queue.Redis]). *)

From stdpp Require Import gmap strings list.
From Stdlib Require Import ZArith DecimalString.

Local Open Scope Z_scope.

(** ** Go values shared by the packages *)

(** A Go [error].  [Errorf] is [fmt.Errorf] with a plain message, [Wrapf] is
    [fmt.Errorf("...: %w", err)]; [RedisError] is whatever the Redis client
    reports when a command gets no answer. *)
Inductive error : Type :=
| RedisError
| Errorf (msg : string)
| Wrapf (msg : string) (cause : error).

Module time.

(** A [time.Time] as this program observes it: the nanoseconds since the
    epoch, and the RFC 3339 text with which [encoding/json] renders it. *)
Record Time : Type := mkTime { UnixNano : Z; RFC3339 : string }.

#[global] Instance Time_eq_dec : EqDecision Time.
Proof. solve_decision. Defined.

Definition Second : Z := 1000000000.

(** [t.Unix()] *)
Definition Unix (t : Time) : Z := UnixNano t / Second.

(** [t.Add(d).Unix()], for a [time.Duration] [d] in nanoseconds *)
Definition AddUnix (t : Time) (d : Z) : Z := (UnixNano t + d) / Second.

End time.

Module config.

(** The part of [QueueConfig] that the engine computes with.  The five
    configured key names are the constructors of [queue.ListKey] and
    [queue.ZSetKey]: they are taken to be pairwise distinct. *)
Record QueueConfig : Type := mkQueueConfig {
  TaskTimeout : Z;   (* time.Duration *)
  RetryDelay : Z     (* time.Duration *)
}.

End config.

(** ** package models *)

Module models.

Inductive TaskStatus : Type :=
| TaskStatusPending
| TaskStatusRunning
| TaskStatusCompleted
| TaskStatusFailed
| TaskStatusCancelled.

#[global] Instance TaskStatus_eq_dec : EqDecision TaskStatus.
Proof. solve_decision. Defined.

Definition TaskPriorityLow : Z := 1.
Definition TaskPriorityMedium : Z := 2.
Definition TaskPriorityHigh : Z := 3.

Inductive ModelType : Type := ModelTypeOpenAI | ModelTypeLocal | ModelTypeCustom.
Inductive ModelStatus : Type :=
  ModelStatusOnline | ModelStatusOffline | ModelStatusMaintenance.

#[global] Instance ModelType_eq_dec : EqDecision ModelType.
Proof. solve_decision. Defined.
#[global] Instance ModelStatus_eq_dec : EqDecision ModelStatus.
Proof. solve_decision. Defined.

Definition ModelType_string (t : ModelType) : string :=
  match t with
  | ModelTypeOpenAI => "openai"
  | ModelTypeLocal => "local"
  | ModelTypeCustom => "custom"
  end.

(** A decoded JSON value of a [ModelConfig] ([interface{}]). *)
Inductive JSON : Type :=
| JNull
| JString (s : string)
| JNumber (n : Z)
| JBool (b : bool).

#[global] Instance JSON_eq_dec : EqDecision JSON.
Proof. solve_decision. Defined.

Module Task.
Record t : Type := mk {
  ID : N;
  ModelID : N;
  Type_ : string;
  Input : string;
  Output : option string;
  Status : TaskStatus;
  Priority : Z;
  RetryCount : Z;
  MaxRetries : Z;
  ErrorMessage : option string;
  StartedAt : option time.Time;
  CompletedAt : option time.Time;
  CreatedAt : time.Time
}.

(** [CanRetry] *)
Definition CanRetry (t : t) : bool :=
  bool_decide (Status t = TaskStatusFailed) && (RetryCount t <? MaxRetries t).

(** [IsCompleted] *)
Definition IsCompleted (t : t) : bool :=
  bool_decide (Status t = TaskStatusCompleted)
  || bool_decide (Status t = TaskStatusFailed)
  || bool_decide (Status t = TaskStatusCancelled).
End Task.

Module Model.
Record t : Type := mk {
  ID : N;
  Name : string;
  Type_ : ModelType;
  Config : gmap string JSON;
  Status : ModelStatus;
  MaxWorkers : Z;
  CurrentWorkers : Z;
  TotalRequests : Z;
  SuccessRequests : Z
}.

(** [IsAvailable] *)
Definition IsAvailable (m : t) : bool :=
  bool_decide (Status m = ModelStatusOnline) && (CurrentWorkers m <? MaxWorkers m).

(** [GetConfigValue]: the value ([nil] when absent) and whether the key
    exists. *)
Definition GetConfigValue (m : t) (key : string) : JSON * bool :=
  match Config m !! key with
  | Some v => (v, true)
  | None => (JNull, false)
  end.
End Model.

Inductive LogLevel : Type := LogLevelDebug | LogLevelInfo | LogLevelWarn | LogLevelError.

Record TaskLog : Type := mkTaskLog {
  LogTaskID : N;
  Level : LogLevel;
  Message : string;
  Data : list (string * string)
}.

(** [TaskCreateRequest] *)
Record TaskCreateRequest : Type := mkTaskCreateRequest {
  ReqModelID : N;
  ReqType : string;
  ReqInput : string;
  ReqPriority : Z
}.

(** [TaskUpdateRequest]: both fields are pointers, [nil] is [None]. *)
Record TaskUpdateRequest : Type := mkTaskUpdateRequest {
  UpdPriority : option Z;
  UpdStatus : option TaskStatus
}.

(** [QueueStatus] *)
Record QueueStatus : Type := mkQueueStatus {
  HighPriorityCount : Z;
  MediumPriorityCount : Z;
  LowPriorityCount : Z;
  ProcessingCount : Z;
  DelayedCount : Z;
  TotalCount : Z
}.

End models.


(** ** package queue: the Redis key space and the queue manager *)

Module queue.

(** [QueueItem] *)
Record QueueItem : Type := mkQueueItem {
  TaskID : N;
  ModelID : N;
  Priority : Z;
  CreatedAt : time.Time
}.

#[global] Instance QueueItem_eq_dec : EqDecision QueueItem.
Proof. solve_decision. Defined.

Definition quote : string := String (Ascii.ascii_of_nat 34) EmptyString.

(** [json.Marshal(item)]: the bytes stored in Redis.  Every member of every
    list and sorted set is written by the manager as such an encoding, and
    decoding it gives the item back, so the model keeps the item itself as
    the member and uses the text only where Redis compares members. *)
Definition marshal (item : QueueItem) : string :=
  "{" +:+ quote +:+ "task_id" +:+ quote +:+ ":"
      +:+ NilZero.string_of_uint (N.to_uint (TaskID item))
  +:+ "," +:+ quote +:+ "model_id" +:+ quote +:+ ":"
      +:+ NilZero.string_of_uint (N.to_uint (ModelID item))
  +:+ "," +:+ quote +:+ "priority" +:+ quote +:+ ":"
      +:+ NilZero.string_of_int (Z.to_int (Priority item))
  +:+ "," +:+ quote +:+ "created_at" +:+ quote +:+ ":"
      +:+ quote +:+ time.RFC3339 (CreatedAt item) +:+ quote
  +:+ "}".

(** *** Sorted sets *)

(** A sorted set: members with their scores, kept in the order of [ZRANGE]
    (by score, members of equal score by their bytes). *)
Definition ZSet : Type := list (QueueItem * Z).

Definition zless (a b : QueueItem * Z) : bool :=
  (a.2 <? b.2) || ((a.2 =? b.2) && String.ltb (marshal a.1) (marshal b.1)).

Fixpoint zinsert (e : QueueItem * Z) (z : ZSet) : ZSet :=
  match z with
  | [] => [e]
  | x :: z' => if zless e x then e :: x :: z' else x :: zinsert e z'
  end.

Definition zremove (member : QueueItem) (z : ZSet) : ZSet :=
  filter (λ e, e.1 ≠ member) z.

(** the score of a member ([ZSCORE]) *)
Fixpoint zscore (z : ZSet) (member : QueueItem) : option Z :=
  match z with
  | [] => None
  | e :: z' => if decide (e.1 = member) then Some e.2 else zscore z' member
  end.

(** *** Lists *)

(** A Redis list, its head (left end) first.  [rpop] takes the tail. *)
Fixpoint rpop {A : Type} (l : list A) : option (list A * A) :=
  match l with
  | [] => None
  | x :: l' =>
      match rpop l' with
      | None => Some ([], x)
      | Some (l'', y) => Some (x :: l'', y)
      end
  end.

(** *** The key space *)

Inductive ListKey : Type :=
| HighPriorityQueue
| MediumPriorityQueue
| LowPriorityQueue.

Inductive ZSetKey : Type :=
| ProcessingQueue
| DelayedQueue.

#[global] Instance ListKey_eq_dec : EqDecision ListKey.
Proof. solve_decision. Defined.
#[global] Instance ZSetKey_eq_dec : EqDecision ZSetKey.
Proof. solve_decision. Defined.

(** The store behind [redis.Client].  [calls_left] is the fault model: the
    number of commands the server still answers before the connection is
    lost ([None]: it never is).  A command that gets no answer returns an
    error and changes nothing. *)
Record Redis : Type := mkRedis {
  calls_left : option nat;
  high : list QueueItem;
  medium : list QueueItem;
  low : list QueueItem;
  processing : ZSet;
  delayed : ZSet
}.

#[global] Instance Redis_eq_dec : EqDecision Redis.
Proof. solve_decision. Defined.

Definition lane (r : Redis) (key : ListKey) : list QueueItem :=
  match key with
  | HighPriorityQueue => high r
  | MediumPriorityQueue => medium r
  | LowPriorityQueue => low r
  end.

Definition set_lane (r : Redis) (key : ListKey) (l : list QueueItem) : Redis :=
  match key with
  | HighPriorityQueue =>
      mkRedis (calls_left r) l (medium r) (low r) (processing r) (delayed r)
  | MediumPriorityQueue =>
      mkRedis (calls_left r) (high r) l (low r) (processing r) (delayed r)
  | LowPriorityQueue =>
      mkRedis (calls_left r) (high r) (medium r) l (processing r) (delayed r)
  end.

Definition zset (r : Redis) (key : ZSetKey) : ZSet :=
  match key with
  | ProcessingQueue => processing r
  | DelayedQueue => delayed r
  end.

Definition set_zset (r : Redis) (key : ZSetKey) (z : ZSet) : Redis :=
  match key with
  | ProcessingQueue =>
      mkRedis (calls_left r) (high r) (medium r) (low r) z (delayed r)
  | DelayedQueue =>
      mkRedis (calls_left r) (high r) (medium r) (low r) (processing r) z
  end.

(** One round trip: [None] when the server does not answer. *)
Definition roundtrip (r : Redis) : option Redis :=
  match calls_left r with
  | None => Some r
  | Some O => None
  | Some (S n) =>
      Some (mkRedis (Some n) (high r) (medium r) (low r) (processing r) (delayed r))
  end.

(** *** Commands.  [None] is a non-nil [.Err()]. *)

Definition LPush (r : Redis) (key : ListKey) (v : QueueItem) : option Redis :=
  r' ← roundtrip r; Some (set_lane r' key (v :: lane r' key)).

(** [BRPop] on one key: [Some (_, None)] is [redis.Nil], the list stayed
    empty until the timeout. *)
Definition BRPop (r : Redis) (key : ListKey) : option (Redis * option QueueItem) :=
  r' ← roundtrip r;
  match rpop (lane r' key) with
  | None => Some (r', None)
  | Some (l, v) => Some (set_lane r' key l, Some v)
  end.

(** [ZAdd] of one member: a member already there moves to its new score. *)
Definition ZAdd (r : Redis) (key : ZSetKey) (score : Z) (member : QueueItem)
  : option Redis :=
  r' ← roundtrip r;
  Some (set_zset r' key (zinsert (member, score) (zremove member (zset r' key)))).

Definition ZRem (r : Redis) (key : ZSetKey) (member : QueueItem) : option Redis :=
  r' ← roundtrip r; Some (set_zset r' key (zremove member (zset r' key))).

(** [ZRange key 0 -1] *)
Definition ZRange (r : Redis) (key : ZSetKey) : option (Redis * list QueueItem) :=
  r' ← roundtrip r; Some (r', (zset r' key).*1).

(** [ZRangeByScore key min max] *)
Definition ZRangeByScore (r : Redis) (key : ZSetKey) (min max : Z)
  : option (Redis * list QueueItem) :=
  r' ← roundtrip r;
  Some (r', (filter (λ e, min ≤ e.2 ∧ e.2 ≤ max) (zset r' key)).*1).

(** *** The manager *)

(** [getQueueKey] *)
Definition getQueueKey (priority : Z) : ListKey :=
  if decide (priority = models.TaskPriorityHigh) then HighPriorityQueue
  else if decide (priority = models.TaskPriorityMedium) then MediumPriorityQueue
  else if decide (priority = models.TaskPriorityLow) then LowPriorityQueue
  else MediumPriorityQueue.

(** the item [EnqueueTask] builds from a task row *)
Definition item_of_task (task : models.Task.t) : QueueItem :=
  {| TaskID := models.Task.ID task;
     ModelID := models.Task.ModelID task;
     Priority := models.Task.Priority task;
     CreatedAt := models.Task.CreatedAt task |}.

(** [EnqueueTask] *)
Definition EnqueueTask (r : Redis) (task : models.Task.t) : Redis * option error :=
  let queueKey := getQueueKey (models.Task.Priority task) in
  let item := item_of_task task in
  match LPush r queueKey item with
  | None => (r, Some (Wrapf "failed to enqueue task" RedisError))
  | Some r' => (r', None)
  end.

(** [moveToProcessing] *)
Definition moveToProcessing (now : time.Time) (r : Redis) (item : QueueItem)
  : Redis * option error :=
  let score := time.Unix now in
  match ZAdd r ProcessingQueue score item with
  | None => (r, Some RedisError)
  | Some r' => (r', None)
  end.

(** The body of the [for _, queueKey := range queues] loop of [DequeueTask],
    over the keys still to visit. *)
Fixpoint DequeueTask_range (now : time.Time) (modelID : N) (queues : list ListKey)
    (r : Redis) : Redis * (error + option QueueItem) :=
  match queues with
  | [] => (r, inr None)
  | queueKey :: queues' =>
      match BRPop r queueKey with
      | None => (r, inl (Wrapf "failed to dequeue from %s" RedisError))
      | Some (r1, None) => DequeueTask_range now modelID queues' r1
      | Some (r1, Some item) =>
          if bool_decide (modelID ≠ 0%N) && bool_decide (ModelID item ≠ modelID)
          then
            (* put it back, an error is only logged; on to the next key *)
            let r2 := default r1 (LPush r1 queueKey item) in
            DequeueTask_range now modelID queues' r2
          else
            match moveToProcessing now r1 item with
            | (r2, Some err) =>
                let r3 := default r2 (LPush r2 queueKey item) in
                (r3, inl err)
            | (r2, None) => (r2, inr (Some item))
            end
      end
  end.

(** [DequeueTask] *)
Definition DequeueTask (now : time.Time) (r : Redis) (modelID : N)
  : Redis * (error + option QueueItem) :=
  DequeueTask_range now modelID
    [HighPriorityQueue; MediumPriorityQueue; LowPriorityQueue] r.

(** The [for _, result := range results] loop of [CompleteTask]: it returns
    at the first member that carries the task id. *)
Fixpoint CompleteTask_range (r : Redis) (taskID : N) (results : list QueueItem)
  : Redis * option error :=
  match results with
  | [] => (r, None)
  | result :: results' =>
      if bool_decide (TaskID result = taskID)
      then match ZRem r ProcessingQueue result with
           | None => (r, Some RedisError)
           | Some r' => (r', None)
           end
      else CompleteTask_range r taskID results'
  end.

(** [CompleteTask] *)
Definition CompleteTask (r : Redis) (taskID : N) : Redis * option error :=
  match ZRange r ProcessingQueue with
  | None => (r, Some RedisError)
  | Some (r1, results) => CompleteTask_range r1 taskID results
  end.

(** [enqueueDelayed] *)
Definition enqueueDelayed (now : time.Time) (r : Redis) (item : QueueItem) (delay : Z)
  : Redis * option error :=
  let score := time.AddUnix now delay in
  match ZAdd r DelayedQueue score item with
  | None => (r, Some RedisError)
  | Some r' => (r', None)
  end.

(** [RequeueTask] *)
Definition RequeueTask (now : time.Time) (r : Redis) (item : QueueItem) (delay : Z)
  : Redis * option error :=
  if 0 <? delay then enqueueDelayed now r item delay
  else
    match LPush r (getQueueKey (Priority item)) item with
    | None => (r, Some RedisError)
    | Some r' => (r', None)
    end.

(** The loop of [ProcessDelayedTasks]. *)
Fixpoint ProcessDelayedTasks_range (r : Redis) (results : list QueueItem) : Redis :=
  match results with
  | [] => r
  | result :: results' =>
      match LPush r (getQueueKey (Priority result)) result with
      | None => ProcessDelayedTasks_range r results'
      | Some r1 =>
          let r2 := default r1 (ZRem r1 DelayedQueue result) in
          ProcessDelayedTasks_range r2 results'
      end
  end.

(** [ProcessDelayedTasks] *)
Definition ProcessDelayedTasks (now : time.Time) (r : Redis) : Redis * option error :=
  match ZRangeByScore r DelayedQueue 0 (time.Unix now) with
  | None => (r, Some RedisError)
  | Some (r1, results) => (ProcessDelayedTasks_range r1 results, None)
  end.

(** The loop of [CleanupStuckTasks]. *)
Fixpoint CleanupStuckTasks_range (cfg : config.QueueConfig) (now : time.Time)
    (r : Redis) (results : list QueueItem) : Redis :=
  match results with
  | [] => r
  | result :: results' =>
      let r1 := (enqueueDelayed now r result (config.RetryDelay cfg)).1 in
      let r2 := default r1 (ZRem r1 ProcessingQueue result) in
      CleanupStuckTasks_range cfg now r2 results'
  end.

(** [CleanupStuckTasks] *)
Definition CleanupStuckTasks (cfg : config.QueueConfig) (now : time.Time) (r : Redis)
  : Redis * option error :=
  let cutoff := time.AddUnix now (- config.TaskTimeout cfg) in
  match ZRangeByScore r ProcessingQueue 0 cutoff with
  | None => (r, Some RedisError)
  | Some (r1, results) => (CleanupStuckTasks_range cfg now r1 results, None)
  end.

(** [LLen] and [ZCard] *)
Definition LLen (r : Redis) (key : ListKey) : option (Redis * Z) :=
  r' ← roundtrip r; Some (r', Z.of_nat (length (lane r' key))).

Definition ZCard (r : Redis) (key : ZSetKey) : option (Redis * Z) :=
  r' ← roundtrip r; Some (r', Z.of_nat (length (zset r' key))).

(** [count, _ := cmd.Result()]: the error is dropped, the count is then the
    zero value. *)
Definition count_or_zero (r : Redis) (res : option (Redis * Z)) : Redis * Z :=
  match res with
  | Some (r', n) => (r', n)
  | None => (r, 0)
  end.

(** The sum of [int64] counts. *)
Definition int64_wrap (z : Z) : Z := (z + 2 ^ 63) mod 2 ^ 64 - 2 ^ 63.

(** [GetQueueStatus]: its error is always [nil]. *)
Definition GetQueueStatus (r : Redis) : Redis * models.QueueStatus :=
  let '(r1, highCount) := count_or_zero r (LLen r HighPriorityQueue) in
  let '(r2, mediumCount) := count_or_zero r1 (LLen r1 MediumPriorityQueue) in
  let '(r3, lowCount) := count_or_zero r2 (LLen r2 LowPriorityQueue) in
  let '(r4, processingCount) := count_or_zero r3 (ZCard r3 ProcessingQueue) in
  let '(r5, delayedCount) := count_or_zero r4 (ZCard r4 DelayedQueue) in
  (r5, models.mkQueueStatus highCount mediumCount lowCount processingCount
         delayedCount
         (int64_wrap
            (int64_wrap
               (int64_wrap (int64_wrap (highCount + mediumCount) + lowCount)
                + processingCount)
             + delayedCount))).

End queue.


(** ** package services: the relational store, the task and model services *)

Module services.

(** The tables behind [gorm.DB]: rows by primary key, the [AUTO_INCREMENT]
    counter of [tasks], and the append-only [task_logs]. *)
Record DB : Type := mkDB {
  tasks_table : gmap N models.Task.t;
  tasks_auto_increment : N;
  models_table : gmap N models.Model.t;
  task_logs_table : list models.TaskLog
}.

(** What a service holds: the database and the queue manager's store. *)
Record Stores : Type := mkStores {
  db : DB;
  redis : queue.Redis
}.

(** Go's [int] is 64 bits wide: [int_wrap] is its wrap-around. *)
Definition int_wrap (z : Z) : Z := (z + 2 ^ 63) mod 2 ^ 64 - 2 ^ 63.
Definition int_range (z : Z) : Prop := - 2 ^ 63 ≤ z < 2 ^ 63.

(** One entry of an [updates := map[string]interface{}{...}]: a column of
    [tasks] with its new value ([nil] is [None]). *)
Inductive TaskColumn : Type :=
| status (v : models.TaskStatus)
| output (v : option string)
| error_message (v : option string)
| started_at (v : option time.Time)
| completed_at (v : option time.Time)
| retry_count (v : Z).

Definition assign (t : models.Task.t) (c : TaskColumn) : models.Task.t :=
  let 'models.Task.mk id mid ty inp out st pr rc mr em sa ca cr := t in
  match c with
  | status v => models.Task.mk id mid ty inp out v pr rc mr em sa ca cr
  | output v => models.Task.mk id mid ty inp v st pr rc mr em sa ca cr
  | error_message v => models.Task.mk id mid ty inp out st pr rc mr v sa ca cr
  | started_at v => models.Task.mk id mid ty inp out st pr rc mr em v ca cr
  | completed_at v => models.Task.mk id mid ty inp out st pr rc mr em sa v cr
  | retry_count v => models.Task.mk id mid ty inp out st pr v mr em sa ca cr
  end.

(** [db.Model(&models.Task{}).Where("id = ?", id).Updates(updates)]: the
    statement writes the listed columns of the row with that key, and no row
    when there is none.  ([db.Model(&task).Updates(updates)] is the same
    statement with the key of [task]; the [BeforeUpdate] hook changes the Go
    value only, not the columns written.  The statement also assigns the
    values of the map to the fields of [task]: code that reads [task]
    afterwards sees [foldl assign task updates].) *)
Definition Updates (d : DB) (id : N) (updates : list TaskColumn) : DB :=
  mkDB (alter (λ t, foldl assign t updates) id (tasks_table d))
       (tasks_auto_increment d) (models_table d) (task_logs_table d).

(** [addTaskLog]: the foreign key refuses a log of a task that has no row;
    the error is only logged. *)
Definition addTaskLog (d : DB) (taskID : N) (level : models.LogLevel)
    (message : string) (data : list (string * string)) : DB :=
  match tasks_table d !! taskID with
  | None => d
  | Some _ =>
      mkDB (tasks_table d) (tasks_auto_increment d) (models_table d)
           (task_logs_table d ++ [models.mkTaskLog taskID level message data])
  end.

(** *** TaskService *)

(** The row [db.Create(task)] writes for a request: the [BeforeCreate] hook
    turns priority 0 into medium, the column defaults give [retry_count] 0
    and [max_retries] 3, the key comes from the counter. *)
Definition new_task (now : time.Time) (id : N) (req : models.TaskCreateRequest)
  : models.Task.t :=
  {| models.Task.ID := id;
     models.Task.ModelID := models.ReqModelID req;
     models.Task.Type_ := models.ReqType req;
     models.Task.Input := models.ReqInput req;
     models.Task.Output := None;
     models.Task.Status := models.TaskStatusPending;
     models.Task.Priority :=
       if decide (models.ReqPriority req = 0) then models.TaskPriorityMedium
       else models.ReqPriority req;
     models.Task.RetryCount := 0;
     models.Task.MaxRetries := 3;
     models.Task.ErrorMessage := None;
     models.Task.StartedAt := None;
     models.Task.CompletedAt := None;
     models.Task.CreatedAt := now |}.

(** [CreateTask] *)
Definition CreateTask (now : time.Time) (s : Stores) (req : models.TaskCreateRequest)
  : Stores * (error + models.Task.t) :=
  match models_table (db s) !! models.ReqModelID req with
  | None => (s, inl (Errorf "model not found"))
  | Some _ =>
      let id := tasks_auto_increment (db s) in
      let task := new_task now id req in
      let d1 := mkDB (<[id := task]> (tasks_table (db s))) (N.succ id)
                     (models_table (db s)) (task_logs_table (db s)) in
      match queue.EnqueueTask (redis s) task with
      | (r1, Some err) =>
          let d2 := Updates d1 id [status models.TaskStatusFailed] in
          let d3 := Updates d2 id [error_message (Some "Failed to enqueue task")] in
          (mkStores d3 r1, inl (Wrapf "failed to enqueue task" err))
      | (r1, None) =>
          let d2 := addTaskLog d1 id models.LogLevelInfo "Task created and enqueued" [] in
          (mkStores d2 r1, inr task)
      end
  end.

(** [GetTask] *)
Definition GetTask (d : DB) (id : N) : error + models.Task.t :=
  match tasks_table d !! id with
  | None => inl (Errorf "task not found")
  | Some task => inr task
  end.

(** [CancelTask] *)
Definition CancelTask (now : time.Time) (s : Stores) (id : N) : Stores * option error :=
  match tasks_table (db s) !! id with
  | None => (s, Some (Errorf "task not found"))
  | Some task =>
      if bool_decide (models.Task.Status task ≠ models.TaskStatusPending)
         && bool_decide (models.Task.Status task ≠ models.TaskStatusRunning)
      then (s, Some (Errorf "task cannot be cancelled in current status: %s"))
      else
        let updates :=
          [status models.TaskStatusCancelled; completed_at (Some now)] in
        let d1 := Updates (db s) id updates in
        (* [Updates] has written the map into [task] too: the test of
           [task.Status] below reads the status just set *)
        let task' := foldl assign task updates in
        let r1 := if bool_decide (models.Task.Status task' = models.TaskStatusRunning)
                  then (queue.CompleteTask (redis s) id).1
                  else redis s in
        let d2 := addTaskLog d1 id models.LogLevelInfo "Task cancelled by user" [] in
        (mkStores d2 r1, None)
  end.

(** [RetryTask] *)
Definition RetryTask (s : Stores) (id : N) : Stores * option error :=
  match tasks_table (db s) !! id with
  | None => (s, Some (Errorf "task not found"))
  | Some task =>
      if bool_decide (models.Task.Status task ≠ models.TaskStatusFailed)
      then (s, Some (Errorf "task cannot be retried in current status: %s"))
      else if models.Task.MaxRetries task <=? models.Task.RetryCount task
      then (s, Some (Errorf "task has exceeded maximum retry count"))
      else
        let updates :=
          [status models.TaskStatusPending;
           error_message None;
           started_at None;
           completed_at None;
           retry_count (int_wrap (models.Task.RetryCount task + 1))] in
        let d1 := Updates (db s) id updates in
        (* the item is built from the row read above: id, model, priority
           and creation time, none of which the update touches *)
        match queue.EnqueueTask (redis s) task with
        | (r1, Some err) =>
            (mkStores d1 r1, Some (Wrapf "failed to enqueue retry task" err))
        | (r1, None) =>
            let d2 := addTaskLog d1 id models.LogLevelInfo
                        "Task retried (attempt %d/%d)" [] in
            (mkStores d2 r1, None)
        end
  end.

(** [StartTask]: no condition on the row but its key. *)
Definition StartTask (now : time.Time) (d : DB) (id : N) : DB * option error :=
  let updates := [status models.TaskStatusRunning; started_at (Some now)] in
  let d1 := Updates d id updates in
  (addTaskLog d1 id models.LogLevelInfo "Task execution started" [], None).

(** [CompleteTask] *)
Definition CompleteTask (now : time.Time) (d : DB) (id : N) (out : string)
  : DB * option error :=
  let updates :=
    [status models.TaskStatusCompleted; output (Some out); completed_at (Some now)] in
  let d1 := Updates d id updates in
  (addTaskLog d1 id models.LogLevelInfo "Task completed successfully" [], None).

(** [FailTask] *)
Definition FailTask (now : time.Time) (d : DB) (id : N) (errorMsg : string)
  : DB * option error :=
  let updates :=
    [status models.TaskStatusFailed; error_message (Some errorMsg);
     completed_at (Some now)] in
  let d1 := Updates d id updates in
  (addTaskLog d1 id models.LogLevelError "Task failed" [("error", errorMsg)], None).

(** *** ModelService *)

(** [GetModel] *)
Definition GetModel (d : DB) (id : N) : error + models.Model.t :=
  match models_table d !! id with
  | None => inl (Errorf "model not found")
  | Some model => inr model
  end.

Definition alter_model (f : models.Model.t → models.Model.t) (id : N) (d : DB) : DB :=
  mkDB (tasks_table d) (tasks_auto_increment d) (alter f id (models_table d))
       (task_logs_table d).

Definition set_workers (v : Z) (m : models.Model.t) : models.Model.t :=
  let 'models.Model.mk id name ty cfg st mw cw tr sr := m in
  models.Model.mk id name ty cfg st mw v tr sr.

Definition set_requests (total success : Z) (m : models.Model.t) : models.Model.t :=
  let 'models.Model.mk id name ty cfg st mw cw tr sr := m in
  models.Model.mk id name ty cfg st mw cw total success.

(** [IncrementWorkerCount]:
    [UPDATE models SET current_workers = current_workers + 1 WHERE id = ?] *)
Definition IncrementWorkerCount (d : DB) (id : N) : DB * option error :=
  (alter_model (λ m, set_workers (models.Model.CurrentWorkers m + 1) m) id d, None).

(** [DecrementWorkerCount]:
    [UPDATE models SET current_workers = current_workers - 1
     WHERE id = ? AND current_workers > 0] *)
Definition DecrementWorkerCount (d : DB) (id : N) : DB * option error :=
  (alter_model
     (λ m, if 0 <? models.Model.CurrentWorkers m
           then set_workers (models.Model.CurrentWorkers m - 1) m
           else m) id d, None).

(** [IncrementRequestCount] *)
Definition IncrementRequestCount (d : DB) (id : N) (success : bool)
  : DB * option error :=
  (alter_model
     (λ m, set_requests (models.Model.TotalRequests m + 1)
             (if success then models.Model.SuccessRequests m + 1
              else models.Model.SuccessRequests m) m) id d, None).

(** *** TaskService, continued *)

Definition set_priority (v : Z) (t : models.Task.t) : models.Task.t :=
  let 'models.Task.mk id mid ty inp out st pr rc mr em sa ca cr := t in
  models.Task.mk id mid ty inp out st v rc mr em sa ca cr.

(** [UpdateTask]: the one [Updates] statement writes the priority and the
    status that the request carries; each comes with a log line. *)
Definition UpdateTask (d : DB) (id : N) (req : models.TaskUpdateRequest)
  : DB * (error + models.Task.t) :=
  match tasks_table d !! id with
  | None => (d, inl (Errorf "task not found"))
  | Some _ =>
      let d1 :=
        match models.UpdPriority req with
        | Some _ => addTaskLog d id models.LogLevelInfo "Priority updated to %d" []
        | None => d
        end in
      let d2 :=
        match models.UpdStatus req with
        | Some _ => addTaskLog d1 id models.LogLevelInfo "Status updated to %s" []
        | None => d1
        end in
      let d3 :=
        match models.UpdPriority req with
        | Some p =>
            mkDB (alter (set_priority p) id (tasks_table d2))
                 (tasks_auto_increment d2) (models_table d2) (task_logs_table d2)
        | None => d2
        end in
      let d4 :=
        match models.UpdStatus req with
        | Some st => Updates d3 id [status st]
        | None => d3
        end in
      (d4, GetTask d4 id)
  end.

(** *** ModelService, continued *)

Definition set_model_status (v : models.ModelStatus) (m : models.Model.t)
  : models.Model.t :=
  let 'models.Model.mk id name ty cfg st mw cw tr sr := m in
  models.Model.mk id name ty cfg v mw cw tr sr.

(** [UpdateModelStatus] *)
Definition UpdateModelStatus (d : DB) (id : N) (st : models.ModelStatus)
  : DB * option error :=
  (alter_model (set_model_status st) id d, None).

(** The tasks [DeleteModel] counts: those of the model that are pending or
    running. *)
Definition blocks_delete (id : N) (kt : N * models.Task.t) : Prop :=
  models.Task.ModelID kt.2 = id
  ∧ (models.Task.Status kt.2 = models.TaskStatusPending
     ∨ models.Task.Status kt.2 = models.TaskStatusRunning).

#[global] Instance blocks_delete_dec id kt : Decision (blocks_delete id kt).
Proof. unfold blocks_delete. apply _. Defined.

(** A log line survives the deletion of a model unless it belongs to a task
    of that model. *)
Definition log_survives (d : DB) (id : N) (l : models.TaskLog) : Prop :=
  match tasks_table d !! models.LogTaskID l with
  | Some t => models.Task.ModelID t ≠ id
  | None => True
  end.

#[global] Instance log_survives_dec d id l : Decision (log_survives d id l).
Proof. unfold log_survives. destruct (tasks_table d !! _); apply _. Defined.

(** What the foreign keys [tasks.model_id] and [task_logs.task_id] do when
    the row they point to is deleted.  The repository creates the tables in
    two places: its schema script declares both keys [ON DELETE CASCADE];
    [AutoMigrate] derives them from the [foreignKey] tags, which name no
    action, so the delete is refused. *)
Inductive ReferentialAction : Type := OnDeleteCascade | OnDeleteRestrict.

(** [DeleteModel] *)
Definition DeleteModel (fk : ReferentialAction) (d : DB) (id : N)
  : DB * option error :=
  let runningTaskCount := size (filter (blocks_delete id) (tasks_table d)) in
  if (0 <? Z.of_nat runningTaskCount)
  then (d, Some (Errorf "cannot delete model with %d running/pending tasks"))
  else
    match models_table d !! id with
    | None => (d, None)
    | Some _ =>
        let tasks' :=
          filter (λ kt : N * models.Task.t, models.Task.ModelID kt.2 ≠ id)
            (tasks_table d) in
        match fk with
        | OnDeleteCascade =>
            let logs' := filter (log_survives d id) (task_logs_table d) in
            (mkDB tasks' (tasks_auto_increment d) (delete id (models_table d)) logs',
             None)
        | OnDeleteRestrict =>
            match size (filter (λ kt : N * models.Task.t,
                                  models.Task.ModelID kt.2 = id) (tasks_table d)) with
            | O => (mkDB (tasks_table d) (tasks_auto_increment d)
                         (delete id (models_table d)) (task_logs_table d), None)
            | S _ => (d, Some (Wrapf "failed to delete model"
                                 (Errorf "a foreign key constraint fails")))
            end
        end
    end.

End services.


(** ** package worker *)

Module worker.

(** A [Worker]: its id and the model it is bound to.  The [status] and
    [currentTask] fields are [busy] only inside [executeTask] (a deferred
    function resets them), so no state is kept for them here. *)
Record Worker : Type := mkWorker {
  id : string;
  modelID : N
}.

(** The adapters return the output, or the message of their error. *)
Definition result : Type := (string + string)%type.

(** [callOpenAIAPI] *)
Definition callOpenAIAPI (task : models.Task.t) (model : models.Model.t) : result :=
  let '(apiKey, exists_) := models.Model.GetConfigValue model "api_key" in
  if negb exists_ || bool_decide (apiKey = models.JString "")
  then inl "OpenAI API key not configured"
  else inr ("OpenAI 响应: 根据输入 '" +:+ models.Task.Input task +:+ "' 生成的内容").

(** [callLocalAPI] *)
Definition callLocalAPI (task : models.Task.t) (model : models.Model.t) : result :=
  let host := (models.Model.GetConfigValue model "host").1 in
  let port := (models.Model.GetConfigValue model "port").1 in
  if bool_decide (host = models.JNull) || bool_decide (port = models.JNull)
  then inl "local model host/port not configured"
  else inr ("本地模型响应: 基于输入 '" +:+ models.Task.Input task +:+ "' 的处理结果").

(** [executeTextGeneration] *)
Definition executeTextGeneration (task : models.Task.t) (model : models.Model.t)
  : result :=
  match models.Model.Type_ model with
  | models.ModelTypeOpenAI => callOpenAIAPI task model
  | models.ModelTypeLocal => callLocalAPI task model
  | ty => inl ("unsupported model type: " +:+ models.ModelType_string ty)
  end.

(** [executeTranslation] *)
Definition executeTranslation (task : models.Task.t) (model : models.Model.t)
  : result :=
  inr ("翻译结果: " +:+ models.Task.Input task).

(** [executeSummarization]: the first 50 bytes of the input *)
Definition executeSummarization (task : models.Task.t) (model : models.Model.t)
  : result :=
  let input := models.Task.Input task in
  inr ("摘要: " +:+ String.substring 0 (Nat.min 50 (String.length input)) input).

(** [executeEmbedding] *)
Definition executeEmbedding (task : models.Task.t) (model : models.Model.t)
  : result :=
  inr "[0.1, 0.2, 0.3, ...]".

(** [executeCustomTask] *)
Definition executeCustomTask (task : models.Task.t) (model : models.Model.t)
  : result :=
  inr ("自定义任务完成: " +:+ models.Task.Input task).

(** [executeTaskByType] *)
Definition executeTaskByType (task : models.Task.t) (model : models.Model.t)
  : result :=
  let ty := models.Task.Type_ task in
  if decide (ty = "text-generation") then executeTextGeneration task model
  else if decide (ty = "translation") then executeTranslation task model
  else if decide (ty = "summarization") then executeSummarization task model
  else if decide (ty = "embedding") then executeEmbedding task model
  else executeCustomTask task model.

(** [executeTask], up to the call of the adapter: the task is marked as
    started and the model row is read.  [inl] is the early return. *)
Definition executeTask_start (now : time.Time) (s : services.Stores)
    (task : models.Task.t)
  : services.Stores * (error + models.Model.t) :=
  let tid := models.Task.ID task in
  match services.StartTask now (services.db s) tid with
  | (d1, Some err) => (services.mkStores d1 (services.redis s), inl err)
  | (d1, None) =>
      match services.GetModel d1 (models.Task.ModelID task) with
      | inl err =>
          let d2 := (services.FailTask now d1 tid "Failed to get model information").1 in
          (services.mkStores d2 (services.redis s), inl (Wrapf "failed to get model" err))
      | inr model => (services.mkStores d1 (services.redis s), inr model)
      end
  end.

(** [executeTask], from the return of the adapter on; [now] is the time of
    that return. *)
Definition executeTask_finish (now : time.Time) (s : services.Stores)
    (task : models.Task.t) (model : models.Model.t) (res : result)
  : services.Stores * option error :=
  let tid := models.Task.ID task in
  match res with
  | inl msg =>
      let d1 := (services.FailTask now (services.db s) tid msg).1 in
      let d2 := (services.IncrementRequestCount d1 (models.Model.ID model) false).1 in
      let r1 := (queue.CompleteTask (services.redis s) tid).1 in
      (services.mkStores d2 r1, Some (Wrapf "task execution failed" (Errorf msg)))
  | inr out =>
      (* an error of CompleteTask is only logged *)
      let d1 := (services.CompleteTask now (services.db s) tid out).1 in
      let d2 := (services.IncrementRequestCount d1 (models.Model.ID model) true).1 in
      let r1 := (queue.CompleteTask (services.redis s) tid).1 in
      (services.mkStores d2 r1, None)
  end.

(** [executeTask]: [started] and [finished] are the clock readings before
    and after the adapter runs. *)
Definition executeTask (started finished : time.Time) (s : services.Stores)
    (task : models.Task.t) : services.Stores * option error :=
  match executeTask_start started s task with
  | (s1, inl err) => (s1, Some err)
  | (s1, inr model) =>
      executeTask_finish finished s1 task model (executeTaskByType task model)
  end.

(** [processNextTask] *)
Definition processNextTask (w : Worker) (started finished : time.Time)
    (s : services.Stores) : services.Stores * option error :=
  match queue.DequeueTask started (services.redis s) (modelID w) with
  | (r1, inl err) =>
      (services.mkStores (services.db s) r1, Some (Wrapf "failed to dequeue task" err))
  | (r1, inr None) => (services.mkStores (services.db s) r1, None)
  | (r1, inr (Some queueItem)) =>
      let s1 := services.mkStores (services.db s) r1 in
      match services.GetTask (services.db s1) (queue.TaskID queueItem) with
      | inl err => (s1, Some err)
      | inr task => executeTask started finished s1 task
      end
  end.

End worker.


(** * Notions used by the properties *)

Import queue.
Import services.

(** The connection is never lost. *)
Definition healthy (r : Redis) : Prop := calls_left r = None.

(** The keys [DequeueTask] visits before [key]. *)
Definition scanned_before (key : ListKey) : list ListKey :=
  match key with
  | HighPriorityQueue => []
  | MediumPriorityQueue => [HighPriorityQueue]
  | LowPriorityQueue => [HighPriorityQueue; MediumPriorityQueue]
  end.

(** What [moveToProcessing] leaves behind when the store answers. *)
Definition claimed (now : time.Time) (r : Redis) (item : QueueItem) : Redis :=
  set_zset r ProcessingQueue
    (zinsert (item, time.Unix now) (zremove item (processing r))).

(** [EnqueueTask] for each task of a list in turn, with the errors. *)
Fixpoint enqueue_each (r : Redis) (tasks : list models.Task.t)
  : Redis * list (option error) :=
  match tasks with
  | [] => (r, [])
  | task :: tasks' =>
      let '(r1, err) := EnqueueTask r task in
      let '(r2, errs) := enqueue_each r1 tasks' in
      (r2, err :: errs)
  end.

(** One [DequeueTask] of model [m] at each of the given times, with the
    results. *)
Fixpoint dequeue_each (nows : list time.Time) (m : N) (r : Redis)
  : Redis * list (error + option QueueItem) :=
  match nows with
  | [] => (r, [])
  | now :: nows' =>
      let '(r1, res) := DequeueTask now r m in
      let '(r2, ress) := dequeue_each nows' m r1 in
      (r2, res :: ress)
  end.

(** At most one member of the sorted set carries the task id. *)
Definition one_entry_per_task (z : ZSet) (taskID : N) : Prop :=
  ∀ a b, a ∈ z.*1 → b ∈ z.*1 → TaskID a = taskID → TaskID b = taskID → a = b.

(** The row [RetryTask] writes: pending again, the three nullable columns
    cleared, one more retry counted. *)
Definition retried (task : models.Task.t) : models.Task.t :=
  models.Task.mk (models.Task.ID task) (models.Task.ModelID task)
    (models.Task.Type_ task) (models.Task.Input task) (models.Task.Output task)
    models.TaskStatusPending (models.Task.Priority task)
    (models.Task.RetryCount task + 1) (models.Task.MaxRetries task)
    None None None (models.Task.CreatedAt task).

(** [DequeueTask] takes a popped entry when the caller passes model 0 or the
    entry is of the caller's model. *)
Definition acceptable (m : N) (x : QueueItem) : bool :=
  negb (bool_decide (m ≠ 0%N) && bool_decide (ModelID x ≠ m)).

(** The entry a scan over [queues] is to hand out: the tail of the first
    lane whose tail is acceptable. *)
Fixpoint pick (m : N) (r : Redis) (queues : list ListKey) : option QueueItem :=
  match queues with
  | [] => None
  | key :: queues' =>
      match last (lane r key) with
      | Some x => if acceptable m x then Some x else pick m r queues'
      | None => pick m r queues'
      end
  end.

(** The store after one more answered command, [n] answers being left. *)
Definition spent (r : Redis) (n : nat) : Redis :=
  mkRedis (Some n) (high r) (medium r) (low r) (processing r) (delayed r).

(** The entries of a list that belong in the lane [key]. *)
Definition lane_items (key : ListKey) (items : list QueueItem) : list QueueItem :=
  filter (λ it, getQueueKey (Priority it) = key) items.

(** The members [ZRangeByScore key lo hi] returns are those scored within
    the two bounds. *)
Definition scored_within (lo hi : Z) (e : QueueItem * Z) : Prop :=
  lo ≤ e.2 ∧ e.2 ≤ hi.

(** The sorted set after [ZADD] of one member. *)
Definition zadd (z : ZSet) (member : QueueItem) (score : Z) : ZSet :=
  zinsert (member, score) (zremove member z).

(** The operations of the task service on one row. *)
Inductive TaskOp : Type :=
| OpCancel (now : time.Time)
| OpRetry
| OpStart (now : time.Time)
| OpComplete (now : time.Time) (out : string)
| OpFail (now : time.Time) (msg : string)
| OpUpdate (req : models.TaskUpdateRequest).

(** The stores after an operation on the task [id]. *)
Definition run_op (op : TaskOp) (s : Stores) (id : N) : Stores :=
  match op with
  | OpCancel now => (CancelTask now s id).1
  | OpRetry => (RetryTask s id).1
  | OpStart now => mkStores (StartTask now (db s) id).1 (redis s)
  | OpComplete now out => mkStores (services.CompleteTask now (db s) id out).1 (redis s)
  | OpFail now msg => mkStores (FailTask now (db s) id msg).1 (redis s)
  | OpUpdate req => mkStores (UpdateTask (db s) id req).1 (redis s)
  end.

Definition is_update (op : TaskOp) : Prop :=
  match op with
  | OpUpdate _ => True
  | _ => False
  end.

(** What an operation may do to a row: the columns it never writes, and the
    retry count, which goes up by one at most and stays within the maximum. *)
Definition row_step (row row' : models.Task.t) : Prop :=
  models.Task.ID row' = models.Task.ID row
  ∧ models.Task.ModelID row' = models.Task.ModelID row
  ∧ models.Task.Type_ row' = models.Task.Type_ row
  ∧ models.Task.Input row' = models.Task.Input row
  ∧ models.Task.MaxRetries row' = models.Task.MaxRetries row
  ∧ models.Task.CreatedAt row' = models.Task.CreatedAt row
  ∧ models.Task.RetryCount row ≤ models.Task.RetryCount row'
  ∧ models.Task.RetryCount row' ≤ models.Task.RetryCount row + 1
  ∧ (models.Task.RetryCount row ≤ models.Task.MaxRetries row →
     models.Task.RetryCount row' ≤ models.Task.MaxRetries row').

(** The timestamps that go with a status: a running row has [started_at], a
    completed, failed or cancelled row has [completed_at]. *)
Definition timestamps_ok (row : models.Task.t) : Prop :=
  (models.Task.Status row = models.TaskStatusRunning →
   is_Some (models.Task.StartedAt row))
  ∧ (models.Task.IsCompleted row = true → is_Some (models.Task.CompletedAt row)).

(** The row a successful run leaves: completed, with the output and both
    timestamps. *)
Definition completed_row (started finished : time.Time) (out : string)
    (row : models.Task.t) : models.Task.t :=
  models.Task.mk (models.Task.ID row) (models.Task.ModelID row)
    (models.Task.Type_ row) (models.Task.Input row) (Some out)
    models.TaskStatusCompleted (models.Task.Priority row)
    (models.Task.RetryCount row) (models.Task.MaxRetries row)
    (models.Task.ErrorMessage row) (Some started) (Some finished)
    (models.Task.CreatedAt row).

(** The request counters of a model make sense: no more successes than
    requests, and neither negative. *)
Definition counters_ok (m : models.Model.t) : Prop :=
  0 ≤ models.Model.SuccessRequests m
  ∧ models.Model.SuccessRequests m ≤ models.Model.TotalRequests m.

(** The queue store that holds one entry, waiting in the lane of its
    priority, and nothing else. *)
Definition only_entry (item : QueueItem) : Redis :=
  set_lane (mkRedis None [] [] [] [] []) (getQueueKey (Priority item)) [item].

(** ** Worked states *)

(** Three clock readings, at unix seconds 1000, 1005 and 1009. *)
Definition ex_t0 : time.Time := time.mkTime 1000000000000 "1970-01-01T00:16:40Z".
Definition ex_t1 : time.Time := time.mkTime 1005000000000 "1970-01-01T00:16:45Z".
Definition ex_t2 : time.Time := time.mkTime 1009000000000 "1970-01-01T00:16:49Z".

(** One nanosecond short of 300 seconds after [ex_t0], and 300 seconds
    after it. *)
Definition ex_t299 : time.Time := time.mkTime 1299999999999 "1970-01-01T00:21:39.999999999Z".
Definition ex_t300 : time.Time := time.mkTime 1300000000000 "1970-01-01T00:21:40Z".

(** [task_timeout: 300s], [retry_delay: 60s] *)
Definition ex_cfg : config.QueueConfig :=
  config.mkQueueConfig (300 * time.Second) (60 * time.Second).

(** Stores of the key-value side: empty, and with the connection lost. *)
Definition ex_empty : Redis := mkRedis None [] [] [] [] [].
Definition ex_down : Redis := mkRedis (Some 0%nat) [] [] [] [] [].

(** Entries of model 1 (A) and model 2 (B), A the older. *)
Definition ex_itemA : QueueItem := mkQueueItem 11 1 2 ex_t0.
Definition ex_itemB : QueueItem := mkQueueItem 12 2 2 ex_t1.

(** The medium lane holds B at its head and A at its tail. *)
Definition ex_lanes : Redis := mkRedis None [] [ex_itemB; ex_itemA] [] [] [].

(** A high lane with one entry. *)
Definition ex_one : Redis := mkRedis None [ex_itemA] [] [] [] [].

(** Three low-priority tasks of model 1. *)
Definition ex_low_task (id : N) (created : time.Time) : models.Task.t :=
  models.Task.mk id 1 "embedding" "text" None models.TaskStatusPending
    models.TaskPriorityLow 0 3 None None None created.

Definition ex_low_tasks : list models.Task.t :=
  [ex_low_task 21 ex_t0; ex_low_task 22 ex_t1; ex_low_task 23 ex_t2].

(** Two members of the processing set for task 7: the entry claimed at
    priority 2, and the entry of its retry at priority 3. *)
Definition ex_item7 : QueueItem := mkQueueItem 7 1 2 ex_t0.
Definition ex_item7' : QueueItem := mkQueueItem 7 1 3 ex_t0.

Definition ex_two_claims : Redis :=
  mkRedis None [] [] [] [(ex_item7, 1000); (ex_item7', 1005)] [].

(** One claim of task 7. *)
Definition ex_one_claim : Redis := mkRedis None [] [] [] [(ex_item7, 1000)] [].

(** Model 1: a custom model without configuration, one worker allowed;
    then the same with its one worker slot taken. *)
Definition ex_model : models.Model.t :=
  models.Model.mk 1 "echo" models.ModelTypeCustom ∅ models.ModelStatusOnline 1 0 0 0.

Definition ex_full_model : models.Model.t :=
  models.Model.mk 1 "echo" models.ModelTypeCustom ∅ models.ModelStatusOnline 1 1 0 0.

(** Databases with model 1 and no task yet. *)
Definition ex_db : DB := mkDB ∅ 1 {[1%N := ex_model]} [].
Definition ex_full_db : DB := mkDB ∅ 1 {[1%N := ex_full_model]} [].

(** Task 5 failed once, with retries left. *)
Definition ex_failed_task : models.Task.t :=
  models.Task.mk 5 1 "translation" "hello" None models.TaskStatusFailed
    models.TaskPriorityHigh 0 3 (Some "boom") (Some ex_t0) (Some ex_t1) ex_t0.

Definition ex_failed_stores : Stores :=
  mkStores (mkDB {[5%N := ex_failed_task]} 6 {[1%N := ex_model]} []) ex_empty.

(** Task 3 is pending, its entry in the medium lane. *)
Definition ex_pending_task : models.Task.t :=
  models.Task.mk 3 1 "translation" "hello" None models.TaskStatusPending
    models.TaskPriorityMedium 0 3 None None None ex_t0.

Definition ex_pending_stores : Stores :=
  mkStores (mkDB {[3%N := ex_pending_task]} 4 {[1%N := ex_model]} [])
           (mkRedis None [] [item_of_task ex_pending_task] [] [] []).

(** Two requests for model 1: a translation, which the stub adapter always
    answers, and a text generation, which a custom model refuses. *)
Definition ex_translate : models.TaskCreateRequest :=
  models.mkTaskCreateRequest 1 "translation" "hello" 0.

Definition ex_generate : models.TaskCreateRequest :=
  models.mkTaskCreateRequest 1 "text-generation" "hello" 0.

(** The text generation of [ex_generate] as task 1, started by a worker: its
    entry is in the processing set, claimed at second 1005, behind a claim of
    task 7. *)
Definition ex_generate_task : models.Task.t :=
  models.Task.mk 1 1 "text-generation" "hello" None models.TaskStatusPending
    models.TaskPriorityMedium 0 3 None None None ex_t0.

Definition ex_generate_stores : Stores :=
  mkStores (mkDB {[1%N := ex_generate_task]} 2 {[1%N := ex_model]} [])
           (mkRedis None [] [] [] [(ex_item7, 1000); (mkQueueItem 1 1 2 ex_t0, 1005)] []).

(** A worker bound to model 1. *)
Definition ex_worker : worker.Worker := worker.mkWorker "worker-1-0" 1.

(** Tasks of model 1 with priorities low, high, medium and 9. *)
Definition ex_mixed_task (id : N) (priority : Z) : models.Task.t :=
  models.Task.mk id 1 "embedding" "text" None models.TaskStatusPending
    priority 0 3 None None None ex_t0.

Definition ex_mixed_tasks : list models.Task.t :=
  [ex_mixed_task 31 1; ex_mixed_task 32 3; ex_mixed_task 33 2; ex_mixed_task 34 9].

(** Task 7 is running, its entry claimed at second 1000. *)
Definition ex_running_task : models.Task.t :=
  models.Task.mk 7 1 "translation" "hello" None models.TaskStatusRunning
    models.TaskPriorityMedium 0 3 None (Some ex_t0) None ex_t0.

Definition ex_running_stores : Stores :=
  mkStores (mkDB {[7%N := ex_running_task]} 8 {[1%N := ex_model]} []) ex_one_claim.


(** * Properties *)

(** ** The store *)

Lemma rpop_snoc {A : Type} (l : list A) (x : A) : rpop (l ++ [x]) = Some (l, x).
Proof.
  induction l as [|y l IH]; simpl; [done|]. by rewrite IH.
Qed.

Lemma roundtrip_healthy r : healthy r → roundtrip r = Some r.
Proof. unfold healthy, roundtrip. by intros ->. Qed.

Lemma lane_set_lane_eq r key l : lane (set_lane r key l) key = l.
Proof. by destruct key. Qed.

Lemma lane_set_lane_ne r key key' l :
  key ≠ key' → lane (set_lane r key l) key' = lane r key'.
Proof. by destruct key, key'. Qed.

Lemma lane_set_zset r zkey z key : lane (set_zset r zkey z) key = lane r key.
Proof. by destruct zkey, key. Qed.

Lemma healthy_set_lane r key l : healthy r → healthy (set_lane r key l).
Proof. by destruct key. Qed.

Lemma healthy_set_zset r zkey z : healthy r → healthy (set_zset r zkey z).
Proof. by destruct zkey. Qed.

Lemma set_lane_id r key : set_lane r key (lane r key) = r.
Proof. by destruct r, key. Qed.

Lemma LPush_healthy r key v :
  healthy r → LPush r key v = Some (set_lane r key (v :: lane r key)).
Proof. intros H. unfold LPush. by rewrite (roundtrip_healthy _ H). Qed.

Lemma BRPop_healthy_empty r key :
  healthy r → lane r key = [] → BRPop r key = Some (r, None).
Proof.
  intros H Hl. unfold BRPop. rewrite (roundtrip_healthy _ H). simpl. by rewrite Hl.
Qed.

Lemma BRPop_healthy_snoc r key l x :
  healthy r → lane r key = l ++ [x] → BRPop r key = Some (set_lane r key l, Some x).
Proof.
  intros H Hl. unfold BRPop. rewrite (roundtrip_healthy _ H). simpl.
  by rewrite Hl, rpop_snoc.
Qed.

Lemma ZAdd_healthy r zkey score member :
  healthy r →
  ZAdd r zkey score member
  = Some (set_zset r zkey (zinsert (member, score) (zremove member (zset r zkey)))).
Proof. intros H. unfold ZAdd. by rewrite (roundtrip_healthy _ H). Qed.

Lemma ZRem_healthy r zkey member :
  healthy r → ZRem r zkey member = Some (set_zset r zkey (zremove member (zset r zkey))).
Proof. intros H. unfold ZRem. by rewrite (roundtrip_healthy _ H). Qed.

(** ** Sorted sets *)

Lemma zscore_zremove z member : zscore (zremove member z) member = None.
Proof.
  unfold zremove. induction z as [|e z IH]; [done|].
  rewrite (filter_cons (λ e0 : QueueItem * Z, e0.1 ≠ member)).
  destruct (decide (e.1 ≠ member)) as [Hne|Heq]; [|done].
  simpl. by rewrite decide_False.
Qed.

Lemma zscore_zinsert_eq z member score :
  zscore z member = None → zscore (zinsert (member, score) z) member = Some score.
Proof.
  induction z as [|e z IH]; simpl.
  - intros _. by rewrite decide_True.
  - destruct (decide (e.1 = member)) as [|Hne]; [done|]. intros Hz.
    destruct (zless (member, score) e); simpl.
    + by rewrite decide_True.
    + rewrite decide_False by done. auto.
Qed.

(** After [ZADD] the member carries the new score. *)
Lemma zscore_zadd z member score :
  zscore (zinsert (member, score) (zremove member z)) member = Some score.
Proof. apply zscore_zinsert_eq, zscore_zremove. Qed.

(** [ZADD] keeps the order of [ZRANGE]: by score, and at equal scores by
    the bytes of the members; adding a member again moves it. *)
Example ZAdd_order :
  (r1 ← ZAdd ex_empty ProcessingQueue 5 ex_itemB;
   r2 ← ZAdd r1 ProcessingQueue 5 ex_itemA;
   r3 ← ZAdd r2 ProcessingQueue 4 ex_item7;
   ZAdd r3 ProcessingQueue 6 ex_itemA)
  = Some (mkRedis None [] [] [] [(ex_item7, 4); (ex_itemB, 5); (ex_itemA, 6)] []).
Proof. reflexivity. Qed.

Lemma elem_of_zremove z member x :
  x ∈ (zremove member z).*1 ↔ x ≠ member ∧ x ∈ z.*1.
Proof.
  unfold zremove. rewrite !list_elem_of_fmap. split.
  - intros (e & -> & He). apply list_elem_of_filter in He as [Hne He]. eauto.
  - intros (Hne & e & -> & He). exists e. split; [done|].
    by apply list_elem_of_filter.
Qed.

(** ** [DequeueTask] *)

Lemma moveToProcessing_healthy now r item :
  healthy r → moveToProcessing now r item = (claimed now r item, None).
Proof.
  intros H. unfold moveToProcessing. by rewrite (ZAdd_healthy _ _ _ _ H).
Qed.

(** Empty lanes are passed over. *)
Lemma DequeueTask_range_skip_empty now m key queues r :
  healthy r → lane r key = [] →
  DequeueTask_range now m (key :: queues) r = DequeueTask_range now m queues r.
Proof. intros H Hl. simpl. by rewrite (BRPop_healthy_empty _ _ H Hl). Qed.

(** A tail entry of the caller's model, or any tail entry when the caller
    passes model 0, is claimed and returned. *)
Lemma DequeueTask_range_hit now m key queues r l x :
  healthy r → lane r key = l ++ [x] → m = 0%N ∨ ModelID x = m →
  DequeueTask_range now m (key :: queues) r
  = (claimed now (set_lane r key l) x, inr (Some x)).
Proof.
  intros H Hl Hm. simpl. rewrite (BRPop_healthy_snoc _ _ _ _ H Hl).
  assert (bool_decide (m ≠ 0%N) && bool_decide (ModelID x ≠ m) = false) as ->.
  { destruct Hm as [->| ->].
    - by rewrite bool_decide_eq_false_2 by (intros Hc; by apply Hc).
    - rewrite andb_false_iff. right.
      by rewrite bool_decide_eq_false_2 by (intros Hc; by apply Hc). }
  by rewrite moveToProcessing_healthy by by apply healthy_set_lane.
Qed.

(** A tail entry of another model goes back to the head of its lane, and the
    scan moves on to the next key. *)
Lemma DequeueTask_range_miss now m key queues r l x :
  healthy r → lane r key = l ++ [x] → m ≠ 0%N → ModelID x ≠ m →
  DequeueTask_range now m (key :: queues) r
  = DequeueTask_range now m queues (set_lane r key (x :: l)).
Proof.
  intros H Hl Hm Hx. simpl. rewrite (BRPop_healthy_snoc _ _ _ _ H Hl).
  rewrite !bool_decide_eq_true_2 by done. simpl.
  rewrite LPush_healthy by by apply healthy_set_lane.
  simpl. rewrite lane_set_lane_eq. by destruct r, key.
Qed.

Lemma DequeueTask_hit now m key r l x :
  healthy r → Forall (λ k, lane r k = []) (scanned_before key) →
  lane r key = l ++ [x] → m = 0%N ∨ ModelID x = m →
  DequeueTask now r m = (claimed now (set_lane r key l) x, inr (Some x)).
Proof.
  intros H Hbefore Hl Hm. unfold DequeueTask.
  destruct key; simpl in Hbefore.
  - by apply DequeueTask_range_hit.
  - apply Forall_cons_1 in Hbefore as [Hh _].
    rewrite DequeueTask_range_skip_empty by done.
    by apply DequeueTask_range_hit.
  - apply Forall_cons_1 in Hbefore as [Hh Hbefore].
    apply Forall_cons_1 in Hbefore as [Hmd _].
    rewrite !DequeueTask_range_skip_empty by done.
    by apply DequeueTask_range_hit.
Qed.

Lemma healthy_claimed now r item : healthy r → healthy (claimed now r item).
Proof. apply healthy_set_zset. Qed.

Lemma lane_claimed now r item key : lane (claimed now r item) key = lane r key.
Proof. apply lane_set_zset. Qed.

Lemma scanned_before_ne key k : k ∈ scanned_before key → k ≠ key.
Proof.
  destruct key, k; simpl; rewrite list_elem_of_In; simpl; intuition discriminate.
Qed.

Lemma set_lane_set_lane r key l1 l2 :
  set_lane (set_lane r key l1) key l2 = set_lane r key l2.
Proof. by destruct key. Qed.

Lemma EnqueueTask_healthy r task :
  healthy r →
  EnqueueTask r task
  = (set_lane r (getQueueKey (models.Task.Priority task))
       (item_of_task task :: lane r (getQueueKey (models.Task.Priority task))), None).
Proof. intros H. unfold EnqueueTask. by rewrite LPush_healthy. Qed.

Lemma enqueue_each_healthy p tasks :
  ∀ r,
    healthy r →
    Forall (λ t, models.Task.Priority t = p) tasks →
    enqueue_each r tasks
    = (set_lane r (getQueueKey p)
         (reverse (item_of_task <$> tasks) ++ lane r (getQueueKey p)),
       replicate (length tasks) None).
Proof.
  induction tasks as [|task tasks IH]; intros r H Hp; simpl.
  - by rewrite set_lane_id.
  - apply Forall_cons_1 in Hp as [Hpt Hp].
    rewrite EnqueueTask_healthy by done. rewrite Hpt.
    rewrite IH by (by try apply healthy_set_lane).
    rewrite set_lane_set_lane, lane_set_lane_eq, reverse_cons.
    by rewrite <- app_assoc.
Qed.

Lemma dequeue_each_fifo m key items :
  ∀ nows r,
    healthy r →
    Forall (λ k, lane r k = []) (scanned_before key) →
    lane r key = reverse items →
    Forall (λ x, ModelID x = m) items →
    length nows = length items →
    (dequeue_each nows m r).2 = (λ x, inr (Some x)) <$> items.
Proof.
  induction items as [|x items IH]; intros nows r H Hbefore Hl Hm Hlen.
  - by destruct nows.
  - destruct nows as [|now nows]; [done|]. simpl.
    apply Forall_cons_1 in Hm as [Hx Hm].
    rewrite reverse_cons in Hl.
    rewrite (DequeueTask_hit now m key r (reverse items) x) by auto.
    specialize (IH nows (claimed now (set_lane r key (reverse items)) x)).
    destruct (dequeue_each nows m _) as [r2 ress]. simpl in *. f_equal.
    apply IH.
    + by apply healthy_claimed, healthy_set_lane.
    + apply Forall_forall. intros k Hk. rewrite lane_claimed.
      rewrite lane_set_lane_ne by (apply not_eq_sym; by apply scanned_before_ne).
      by apply (proj1 (Forall_forall _ _) Hbefore).
    + by rewrite lane_claimed, lane_set_lane_eq.
    + done.
    + by injection Hlen.
Qed.

(** ** [CompleteTask] of the queue manager *)

Lemma CompleteTask_range_cases r taskID results :
  healthy r →
  (Forall (λ it, TaskID it ≠ taskID) results
   ∧ CompleteTask_range r taskID results = (r, None))
  ∨ (∃ it, it ∈ results ∧ TaskID it = taskID
     ∧ CompleteTask_range r taskID results
       = (set_zset r ProcessingQueue (zremove it (processing r)), None)).
Proof.
  intros H. induction results as [|it results IH]; simpl.
  - left. by split.
  - destruct (decide (TaskID it = taskID)) as [Heq|Hne].
    + right. exists it. rewrite bool_decide_eq_true_2 by done.
      rewrite ZRem_healthy by done. repeat split; [left|done].
    + rewrite bool_decide_eq_false_2 by done.
      destruct IH as [[Hall ->]|(it' & Hin & Htid & ->)].
      * left. split; [by constructor|done].
      * right. exists it'. repeat split; [by right|done].
Qed.

Lemma ZRange_healthy r zkey : healthy r → ZRange r zkey = Some (r, (zset r zkey).*1).
Proof. intros H. unfold ZRange. by rewrite (roundtrip_healthy _ H). Qed.

Lemma CompleteTask_absent r taskID :
  healthy r →
  Forall (λ it, TaskID it ≠ taskID) (processing r).*1 →
  queue.CompleteTask r taskID = (r, None).
Proof.
  intros H Hall. unfold queue.CompleteTask. rewrite ZRange_healthy by done. simpl.
  destruct (CompleteTask_range_cases r taskID (processing r).*1 H)
    as [[_ ->]|(it & Hin & Htid & _)]; [done|].
  by destruct (proj1 (Forall_forall _ _) Hall it Hin).
Qed.

Lemma roundtrip_queues r r' :
  roundtrip r = Some r' →
  high r' = high r ∧ medium r' = medium r ∧ low r' = low r
  ∧ processing r' = processing r ∧ delayed r' = delayed r.
Proof.
  unfold roundtrip. destruct (calls_left r) as [[|n]|]; intros ?; by simplify_eq.
Qed.

(** [CompleteTask] touches the processing set only. *)
Lemma CompleteTask_keeps_lanes r taskID :
  let r' := (queue.CompleteTask r taskID).1 in
  high r' = high r ∧ medium r' = medium r ∧ low r' = low r ∧ delayed r' = delayed r.
Proof.
  unfold queue.CompleteTask, ZRange. simpl.
  destruct (roundtrip r) as [r1|] eqn:Hr1; simpl; [|done].
  apply roundtrip_queues in Hr1 as (Hh & Hm & Hl & _ & Hd).
  rewrite <- Hh, <- Hm, <- Hl, <- Hd. clear.
  induction (processing r1).*1 as [|it results IH]; simpl; [done|].
  destruct (bool_decide (TaskID it = taskID)); [|done].
  unfold ZRem. destruct (roundtrip r1) as [r2|] eqn:Hr2; simpl; [|done].
  by apply roundtrip_queues in Hr2 as (-> & -> & -> & _ & ->).
Qed.

(** In a sorted set a member occurs once: removing it takes out its one
    pair and keeps the rest in order. *)
Lemma zremove_middle (pre post : ZSet) (member : QueueItem) (score : Z) :
  NoDup (pre ++ (member, score) :: post).*1 →
  zremove member (pre ++ (member, score) :: post) = pre ++ post.
Proof.
  rewrite fmap_app, fmap_cons. cbn [fst]. intros Hnodup.
  apply NoDup_app in Hnodup as (_ & Hpre & Hpost).
  apply NoDup_cons in Hpost as [Hpost _].
  assert (∀ z : ZSet, member ∉ z.*1 → filter (λ e, e.1 ≠ member) z = z) as Hkeep.
  { intros z Hz. induction z as [|e z IH]; [done|].
    rewrite fmap_cons, not_elem_of_cons in Hz. destruct Hz as [Hne Hz].
    rewrite (filter_cons_True (λ e0 : QueueItem * Z, e0.1 ≠ member)) by done.
    f_equal. by apply IH. }
  unfold zremove. rewrite (filter_app (λ e : QueueItem * Z, e.1 ≠ member)).
  rewrite (filter_cons_False (λ e : QueueItem * Z, e.1 ≠ member))
    by (intros Hne; by apply Hne).
  f_equal; [|by apply Hkeep]. apply Hkeep.
  intros Hin. apply (Hpre member Hin). left.
Qed.

Lemma CompleteTask_range_first r taskID (pre rest : list QueueItem) member :
  healthy r →
  Forall (λ it, TaskID it ≠ taskID) pre →
  TaskID member = taskID →
  CompleteTask_range r taskID (pre ++ member :: rest)
  = (set_zset r ProcessingQueue (zremove member (processing r)), None).
Proof.
  intros H Hpre Hm. induction Hpre as [|it pre Hit _ IH]; simpl.
  - rewrite bool_decide_eq_true_2 by done. by rewrite ZRem_healthy.
  - by rewrite bool_decide_eq_false_2.
Qed.

(** [CompleteTask] takes out the first member, in the order of [ZRANGE],
    that carries the task id, and nothing else. *)
Lemma CompleteTask_first r taskID (pre post : ZSet) member score :
  healthy r →
  processing r = pre ++ (member, score) :: post →
  NoDup (processing r).*1 →
  Forall (λ it, TaskID it ≠ taskID) pre.*1 →
  TaskID member = taskID →
  queue.CompleteTask r taskID
  = (mkRedis (calls_left r) (high r) (medium r) (low r) (pre ++ post) (delayed r),
     None).
Proof.
  intros H Hp Hnodup Hpre Hm. unfold queue.CompleteTask.
  rewrite ZRange_healthy by done. cbn [zset]. rewrite Hp in Hnodup |- *.
  rewrite fmap_app, fmap_cons. cbn [fst].
  rewrite (CompleteTask_range_first r taskID pre.*1 post.*1 member H Hpre Hm).
  rewrite Hp, zremove_middle by done. reflexivity.
Qed.

(** ** The relational store *)

Lemma tasks_table_addTaskLog d taskID level message data :
  tasks_table (addTaskLog d taskID level message data) = tasks_table d.
Proof. unfold addTaskLog. by destruct (tasks_table d !! taskID). Qed.

Lemma models_table_addTaskLog d taskID level message data :
  models_table (addTaskLog d taskID level message data) = models_table d.
Proof. unfold addTaskLog. by destruct (tasks_table d !! taskID). Qed.

Lemma lookup_Updates_eq d id updates :
  tasks_table (Updates d id updates) !! id
  = (λ t, foldl assign t updates) <$> tasks_table d !! id.
Proof. apply lookup_alter_eq. Qed.

Lemma lookup_StartTask now d id :
  tasks_table (StartTask now d id).1 !! id
  = (λ t, assign (assign t (status models.TaskStatusRunning)) (started_at (Some now)))
      <$> tasks_table d !! id.
Proof. simpl. by rewrite tasks_table_addTaskLog, lookup_Updates_eq. Qed.

Lemma lookup_CompleteTask now d id out :
  tasks_table (services.CompleteTask now d id out).1 !! id
  = (λ t, assign (assign (assign t (status models.TaskStatusCompleted))
                    (output (Some out))) (completed_at (Some now)))
      <$> tasks_table d !! id.
Proof. simpl. by rewrite tasks_table_addTaskLog, lookup_Updates_eq. Qed.

Lemma lookup_FailTask now d id msg :
  tasks_table (FailTask now d id msg).1 !! id
  = (λ t, assign (assign (assign t (status models.TaskStatusFailed))
                    (error_message (Some msg))) (completed_at (Some now)))
      <$> tasks_table d !! id.
Proof. simpl. by rewrite tasks_table_addTaskLog, lookup_Updates_eq. Qed.

(** The status [CancelTask] reads back from [task] after its update. *)
Lemma Status_after_cancel task now :
  models.Task.Status
    (foldl assign task [status models.TaskStatusCancelled; completed_at (Some now)])
  = models.TaskStatusCancelled.
Proof. by destruct task. Qed.

Lemma int_wrap_small z : int_range z → int_wrap z = z.
Proof.
  unfold int_range, int_wrap. intros Hz. rewrite Z.mod_small; lia.
Qed.

(** * The claims *)

(** ** C3 *)




(** ** C4 *)

(** C4, as stated, fails: claimed at unix time 1000 with a task timeout of
    300 seconds, the entry is scored 1000, not 1300. *)
Lemma C4_score_is_claim_time :
  (DequeueTask ex_t0 ex_one 1).2 = inr (Some ex_itemA)
  ∧ zscore (processing (DequeueTask ex_t0 ex_one 1).1) ex_itemA = Some 1000
  ∧ time.AddUnix ex_t0 (config.TaskTimeout ex_cfg) = 1300
  ∧ zscore (processing (DequeueTask ex_t0 ex_one 1).1) ex_itemA
    ≠ Some (time.AddUnix ex_t0 (config.TaskTimeout ex_cfg)).
Proof. vm_compute. repeat split. discriminate. Qed.

(** C4, amended: when [DequeueTask] returns an entry, that entry is in the
    processing set with score equal to the current unix time, the time of the
    claim; the task timeout is not added. *)
Theorem DequeueTask_processing_score (now : time.Time) (r r' : Redis) (m : N)
    (item : QueueItem) :
  healthy r →
  DequeueTask now r m = (r', inr (Some item)) →
  zscore (processing r') item = Some (time.Unix now).
Proof.
  unfold DequeueTask.
  generalize [HighPriorityQueue; MediumPriorityQueue; LowPriorityQueue].
  intros queues. revert r.
  induction queues as [|key queues IH]; intros r H; simpl;
    [intros ?; simplify_eq|].
  unfold BRPop. rewrite (roundtrip_healthy _ H). simpl.
  destruct (rpop (lane r key)) as [[l v]|]; simpl;
    [|intros Hd; by apply (IH r)].
  destruct (bool_decide (m ≠ 0%N) && bool_decide (ModelID v ≠ m)).
  - (* another model's entry: back to the head, on to the next key *)
    rewrite LPush_healthy by by apply healthy_set_lane.
    simpl. intros Hd. eapply IH; [|exact Hd]. by repeat apply healthy_set_lane.
  - (* the entry is claimed at [now] and returned *)
    rewrite moveToProcessing_healthy by by apply healthy_set_lane.
    intros [= <- <-]. unfold claimed. simpl. apply zscore_zadd.
Qed.

(** The amended C4 at the worked state. *)
Lemma DequeueTask_processing_score_witness :
  zscore (processing (DequeueTask ex_t0 ex_one 1).1) ex_itemA = Some (time.Unix ex_t0).
Proof.
  apply (DequeueTask_processing_score ex_t0 ex_one _ 1 ex_itemA).
  - reflexivity.
  - reflexivity.
Defined.

(** What the reaper takes: the members scored from 0 up to its own clock
    minus the task timeout. *)
Lemma CleanupStuckTasks_cutoff (cfg : config.QueueConfig) (now : time.Time)
    (r : Redis) :
  healthy r →
  CleanupStuckTasks cfg now r
  = (CleanupStuckTasks_range cfg now r
       (filter (λ e, 0 ≤ e.2 ∧ e.2 ≤ time.AddUnix now (- config.TaskTimeout cfg))
          (processing r)).*1,
     None).
Proof.
  intros H. unfold CleanupStuckTasks, ZRangeByScore.
  by rewrite (roundtrip_healthy _ H).
Qed.

(** An entry claimed at second 1000 with a timeout of 300 seconds is left
    alone by the reaper just before second 1300, and at second 1300 it is
    moved to the delayed set, due after the retry delay. *)
Example reaper_waits_for_the_timeout :
  let r1 := (DequeueTask ex_t0 ex_one 1).1 in
  (CleanupStuckTasks ex_cfg ex_t299 r1).1 = r1
  ∧ processing (CleanupStuckTasks ex_cfg ex_t300 r1).1 = []
  ∧ delayed (CleanupStuckTasks ex_cfg ex_t300 r1).1 = [(ex_itemA, 1360)].
Proof. vm_compute. repeat split. Qed.

(** ** C5 *)

(** C5: tasks of one priority and one model, enqueued in some order while
    their lane and the lanes scanned before it are empty, are all accepted,
    and as many successive [DequeueTask] calls of a worker of that model
    return their entries in the order of insertion. *)
Theorem fifo_within_lane (r : Redis) (tasks : list models.Task.t)
    (nows : list time.Time) (p : Z) (m : N) :
  healthy r →
  Forall (λ t, models.Task.Priority t = p ∧ models.Task.ModelID t = m) tasks →
  Forall (λ k, lane r k = []) (scanned_before (getQueueKey p)) →
  lane r (getQueueKey p) = [] →
  length nows = length tasks →
  (enqueue_each r tasks).2 = replicate (length tasks) None
  ∧ (dequeue_each nows m (enqueue_each r tasks).1).2
    = (λ t, inr (Some (item_of_task t))) <$> tasks.
Proof.
  intros H Htasks Hbefore Hl Hlen.
  assert (Forall (λ t, models.Task.Priority t = p) tasks) as Hp.
  { eapply Forall_impl; [exact Htasks|]. by intros t [? _]. }
  rewrite (enqueue_each_healthy p tasks r H Hp). simpl. split; [done|].
  rewrite Hl, app_nil_r.
  rewrite (dequeue_each_fifo m (getQueueKey p) (item_of_task <$> tasks)).
  - by rewrite <- list_fmap_compose.
  - by apply healthy_set_lane.
  - apply Forall_forall. intros k Hk.
    rewrite lane_set_lane_ne by (apply not_eq_sym; by apply scanned_before_ne).
    by apply (proj1 (Forall_forall _ _) Hbefore).
  - by rewrite lane_set_lane_eq.
  - apply Forall_fmap. eapply Forall_impl; [exact Htasks|]. by intros t [_ ?].
  - by rewrite length_fmap.
Qed.

(** C5 at three tasks: they come out as 21, 22, 23. *)
Lemma fifo_within_lane_witness :
  (enqueue_each ex_empty ex_low_tasks).2 = [None; None; None]
  ∧ (dequeue_each [ex_t2; ex_t2; ex_t2] 1 (enqueue_each ex_empty ex_low_tasks).1).2
    = [inr (Some (mkQueueItem 21 1 1 ex_t0));
       inr (Some (mkQueueItem 22 1 1 ex_t1));
       inr (Some (mkQueueItem 23 1 1 ex_t2))].
Proof.
  apply (fifo_within_lane ex_empty ex_low_tasks [ex_t2; ex_t2; ex_t2]
           models.TaskPriorityLow 1).
  - reflexivity.
  - repeat constructor.
  - repeat constructor.
  - reflexivity.
  - reflexivity.
Defined.

(** ** C9 *)

(** C9: called with model 0, [DequeueTask] returns the tail entry of the
    first non-empty lane in the order high, medium, low, whatever the model
    of that entry, and claims it. *)
Theorem DequeueTask_model_zero (now : time.Time) (r : Redis) (key : ListKey)
    (l : list QueueItem) (x : QueueItem) :
  healthy r →
  Forall (λ k, lane r k = []) (scanned_before key) →
  lane r key = l ++ [x] →
  DequeueTask now r 0 = (claimed now (set_lane r key l) x, inr (Some x)).
Proof.
  intros H Hbefore Hl. unfold DequeueTask.
  assert (0%N = 0%N ∨ ModelID x = 0%N) as Hzero by by left.
  destruct key; simpl in Hbefore.
  - by apply DequeueTask_range_hit.
  - apply Forall_cons_1 in Hbefore as [Hhigh _].
    rewrite DequeueTask_range_skip_empty by done.
    by apply DequeueTask_range_hit.
  - apply Forall_cons_1 in Hbefore as [Hhigh Hbefore].
    apply Forall_cons_1 in Hbefore as [Hmedium _].
    rewrite !DequeueTask_range_skip_empty by done.
    by apply DequeueTask_range_hit.
Qed.

(** C9 at the worked state: entry A of model 1 is handed out. *)
Lemma DequeueTask_model_zero_witness :
  DequeueTask ex_t2 ex_lanes 0
  = (claimed ex_t2 (set_lane ex_lanes MediumPriorityQueue [ex_itemB]) ex_itemA,
     inr (Some ex_itemA)).
Proof.
  apply (DequeueTask_model_zero ex_t2 ex_lanes MediumPriorityQueue [ex_itemB] ex_itemA).
  - reflexivity.
  - repeat constructor.
  - reflexivity.
Defined.

(** ** C10 *)

(** C10, as stated, fails: [CompleteTask] stops at the first member that
    carries the task id, so with two such members the second call removes
    what the first one left. *)
Lemma C10_second_ack_removes_more :
  processing (queue.CompleteTask ex_two_claims 7).1 = [(ex_item7', 1005)]
  ∧ processing (queue.CompleteTask (queue.CompleteTask ex_two_claims 7).1 7).1 = []
  ∧ queue.CompleteTask (queue.CompleteTask ex_two_claims 7).1 7
    ≠ queue.CompleteTask ex_two_claims 7.
Proof. vm_compute. repeat split. discriminate. Qed.

(** C10, amended: while the store answers, [CompleteTask] returns no error;
    for a task id without a member in the processing set it changes nothing;
    otherwise it removes the first member, in range order, that carries the
    task id, and only that one: the members before and after it keep their
    places and scores, the lanes and the delayed set are untouched; so when
    at most one member carries the task id, a second call equals a single
    one. *)
Theorem CompleteTask_idempotent (r : Redis) (taskID : N) :
  healthy r →
  (queue.CompleteTask r taskID).2 = None
  ∧ (Forall (λ it, TaskID it ≠ taskID) (processing r).*1 →
     queue.CompleteTask r taskID = (r, None))
  ∧ (∀ pre member score post,
       processing r = pre ++ (member, score) :: post →
       NoDup (processing r).*1 →
       Forall (λ it, TaskID it ≠ taskID) pre.*1 →
       TaskID member = taskID →
       queue.CompleteTask r taskID
       = (mkRedis (calls_left r) (high r) (medium r) (low r) (pre ++ post)
                  (delayed r), None))
  ∧ (one_entry_per_task (processing r) taskID →
     queue.CompleteTask (queue.CompleteTask r taskID).1 taskID
     = queue.CompleteTask r taskID).
Proof.
  intros H. split; [|split; [|split]].
  - unfold queue.CompleteTask. rewrite ZRange_healthy by done. simpl.
    by destruct (CompleteTask_range_cases r taskID (processing r).*1 H)
      as [[_ ->]|(it & _ & _ & ->)].
  - by apply CompleteTask_absent.
  - intros pre member score post Hp Hnodup Hpre Hm.
    by apply (CompleteTask_first r taskID pre post member score).
  - intros Hone. unfold queue.CompleteTask at 2 3.
    rewrite ZRange_healthy by done. simpl.
    destruct (CompleteTask_range_cases r taskID (processing r).*1 H)
      as [[Hall ->]|(it & Hin & Htid & ->)]; simpl.
    + by apply CompleteTask_absent.
    + apply CompleteTask_absent; [exact H|]. simpl.
      apply Forall_forall. intros x Hx Hxt.
      apply elem_of_zremove in Hx as [Hne Hx].
      apply Hne. by apply Hone.
Qed.

(** The amended C10 at the worked processing sets: with the one claim of
    task 7, task 8 has no member and a second ack of task 7 equals the
    first; with the two claims of task 7, the ack takes out the one scored
    1000 and leaves the one scored 1005. *)
Lemma CompleteTask_idempotent_witness :
  (queue.CompleteTask ex_one_claim 7).2 = None
  ∧ queue.CompleteTask ex_one_claim 8 = (ex_one_claim, None)
  ∧ queue.CompleteTask ex_two_claims 7
    = (mkRedis None [] [] [] [(ex_item7', 1005)] [], None)
  ∧ queue.CompleteTask (queue.CompleteTask ex_one_claim 7).1 7
    = queue.CompleteTask ex_one_claim 7.
Proof.
  destruct (CompleteTask_idempotent ex_one_claim 7 eq_refl) as (Hok & _ & _ & Hone).
  destruct (CompleteTask_idempotent ex_one_claim 8 eq_refl) as (_ & Habsent & _).
  destruct (CompleteTask_idempotent ex_two_claims 7 eq_refl) as (_ & _ & Hfirst & _).
  split; [exact Hok|]. split; [|split].
  - apply Habsent. repeat constructor. discriminate.
  - apply (Hfirst [] ex_item7 1000 [(ex_item7', 1005)]).
    + reflexivity.
    + apply NoDup_cons. split; [|apply NoDup_singleton].
      rewrite list_elem_of_singleton. discriminate.
    + constructor.
    + reflexivity.
  - apply Hone. intros a b Ha Hb _ _.
    apply list_elem_of_singleton in Ha, Hb. congruence.
Defined.

(** ** C6 *)

(** C6, as stated, fails: task 5 is failed with no retry used of three, and
    [RetryTask] returns an error all the same, because the queue store does
    not answer; the row has been reset and the retry counted by then. *)
Lemma C6_error_with_retries_left :
  let s := mkStores (db ex_failed_stores) ex_down in
  tasks_table (db s) !! 5%N = Some ex_failed_task
  ∧ models.Task.Status ex_failed_task = models.TaskStatusFailed
  ∧ models.Task.RetryCount ex_failed_task < models.Task.MaxRetries ex_failed_task
  ∧ (RetryTask s 5).2
    = Some (Wrapf "failed to enqueue retry task"
              (Wrapf "failed to enqueue task" RedisError))
  ∧ (RetryTask s 5).2 ≠ None
  ∧ models.Task.Status <$> tasks_table (db (RetryTask s 5).1) !! 5%N
    = Some models.TaskStatusPending
  ∧ models.Task.RetryCount <$> tasks_table (db (RetryTask s 5).1) !! 5%N = Some 1.
Proof. vm_compute. repeat split; discriminate. Qed.

(** C6, amended: for a task that has a row, while the store answers,
    [RetryTask] returns an error exactly when the status is not failed or
    the retry count has reached the maximum; when it returns none, the row
    is pending with [started_at], [completed_at] and [error_message] cleared
    and the retry count one higher, and an entry that carries the id, the
    model, the priority and the creation time of the task is at the head of
    the lane of its priority, with the rest of that lane, the other lanes
    and the two sorted sets as before.  When the store does not answer,
    [RetryTask] returns an error whatever the row. *)
Theorem RetryTask_gate (s : Stores) (id : N) (task : models.Task.t) :
  tasks_table (db s) !! id = Some task →
  models.Task.ID task = id →
  int_range (models.Task.RetryCount task) →
  int_range (models.Task.MaxRetries task) →
  (healthy (redis s) →
   ((RetryTask s id).2 ≠ None
    ↔ models.Task.Status task ≠ models.TaskStatusFailed
      ∨ models.Task.MaxRetries task ≤ models.Task.RetryCount task)
   ∧ ((RetryTask s id).2 = None →
      tasks_table (db (RetryTask s id).1) !! id
      = Some (models.Task.mk id (models.Task.ModelID task)
                (models.Task.Type_ task) (models.Task.Input task)
                (models.Task.Output task) models.TaskStatusPending
                (models.Task.Priority task) (models.Task.RetryCount task + 1)
                (models.Task.MaxRetries task) None None None
                (models.Task.CreatedAt task))
      ∧ lane (redis (RetryTask s id).1) (getQueueKey (models.Task.Priority task))
        = mkQueueItem id (models.Task.ModelID task) (models.Task.Priority task)
            (models.Task.CreatedAt task)
          :: lane (redis s) (getQueueKey (models.Task.Priority task))
      ∧ (∀ key, key ≠ getQueueKey (models.Task.Priority task) →
                lane (redis (RetryTask s id).1) key = lane (redis s) key)
      ∧ processing (redis (RetryTask s id).1) = processing (redis s)
      ∧ delayed (redis (RetryTask s id).1) = delayed (redis s)))
  ∧ (calls_left (redis s) = Some 0%nat → (RetryTask s id).2 ≠ None).
Proof.
  intros Hrow Hid Hrc Hmr. unfold RetryTask. rewrite Hrow. split.
  - intros H.
    destruct (decide (models.Task.Status task = models.TaskStatusFailed)) as [Hst|Hst].
    + rewrite bool_decide_eq_false_2 by (intros Hc; by apply Hc).
      destruct (Z.leb_spec (models.Task.MaxRetries task) (models.Task.RetryCount task))
        as [Hle|Hlt]; simpl.
      * split; [|done]. split; [by right|done].
      * rewrite EnqueueTask_healthy by done. simpl. split.
        -- split; [done|]. intros [Hc|Hc]; [done|lia].
        -- intros _. rewrite tasks_table_addTaskLog, lookup_Updates_eq, Hrow.
           rewrite lane_set_lane_eq. split; [|split; [|split; [|split]]].
           ++ simpl. f_equal.
              rewrite int_wrap_small by (unfold int_range in *; lia).
              rewrite <- Hid. by destruct task.
           ++ unfold item_of_task. by rewrite Hid.
           ++ intros key Hkey. by rewrite lane_set_lane_ne.
           ++ by destruct (getQueueKey (models.Task.Priority task)).
           ++ by destruct (getQueueKey (models.Task.Priority task)).
    + rewrite bool_decide_eq_true_2 by done. simpl.
      split; [|done]. split; [by left|done].
  - intros Hdown.
    destruct (bool_decide (models.Task.Status task ≠ models.TaskStatusFailed));
      [done|].
    destruct (models.Task.MaxRetries task <=? models.Task.RetryCount task); [done|].
    unfold EnqueueTask, LPush, roundtrip. by rewrite Hdown.
Qed.

(** The amended C6 at the failed task 5 of model 1, priority high: the retry
    is accepted, the row is pending with one retry counted, and the entry of
    task 5 is in the high lane. *)
Lemma RetryTask_gate_witness :
  (RetryTask ex_failed_stores 5).2 = None
  ∧ tasks_table (db (RetryTask ex_failed_stores 5).1) !! 5%N
    = Some (models.Task.mk 5 1 "translation" "hello" None
              models.TaskStatusPending 3 1 3 None None None ex_t0)
  ∧ high (redis (RetryTask ex_failed_stores 5).1) = [mkQueueItem 5 1 3 ex_t0].
Proof.
  destruct (RetryTask_gate ex_failed_stores 5 ex_failed_task) as [Hup _].
  - reflexivity.
  - reflexivity.
  - unfold int_range. simpl. lia.
  - unfold int_range. simpl. lia.
  - destruct (Hup eq_refl) as [_ Hok].
    destruct (Hok eq_refl) as (Hrow & Hlane & _).
    split; [reflexivity|]. split; [exact Hrow | exact Hlane].
Defined.

(** ** C7 *)




(** ** C8 *)

(** C8: when the model of a create request exists and [EnqueueTask] of the
    new row fails, [CreateTask] returns an error and the row stays in the
    table, under the key the counter gave it, with status failed and the
    error message [Failed to enqueue task]. *)
Theorem CreateTask_enqueue_failure (now : time.Time) (s : Stores)
    (req : models.TaskCreateRequest) (model : models.Model.t)
    (r1 : Redis) (err : error) :
  models_table (db s) !! models.ReqModelID req = Some model →
  EnqueueTask (redis s) (new_task now (tasks_auto_increment (db s)) req)
  = (r1, Some err) →
  (CreateTask now s req).2 = inl (Wrapf "failed to enqueue task" err)
  ∧ ∃ row,
      tasks_table (db (CreateTask now s req).1) !! tasks_auto_increment (db s)
      = Some row
      ∧ models.Task.Status row = models.TaskStatusFailed
      ∧ models.Task.ErrorMessage row = Some "Failed to enqueue task"
      ∧ models.Task.ModelID row = models.ReqModelID req
      ∧ models.Task.Type_ row = models.ReqType req
      ∧ models.Task.Input row = models.ReqInput req.
Proof.
  intros Hmodel Henq. unfold CreateTask. rewrite Hmodel, Henq. simpl.
  split; [done|]. eexists. split.
  - rewrite !lookup_alter_eq, lookup_insert_eq. reflexivity.
  - done.
Qed.

(** C8 with the store down: task 1 is left behind as failed. *)
Lemma CreateTask_enqueue_failure_witness :
  (CreateTask ex_t0 (mkStores ex_db ex_down) ex_translate).2
  = inl (Wrapf "failed to enqueue task" (Wrapf "failed to enqueue task" RedisError))
  ∧ ∃ row,
      tasks_table (db (CreateTask ex_t0 (mkStores ex_db ex_down) ex_translate).1) !! 1%N
      = Some row
      ∧ models.Task.Status row = models.TaskStatusFailed
      ∧ models.Task.ErrorMessage row = Some "Failed to enqueue task"
      ∧ models.Task.ModelID row = 1%N
      ∧ models.Task.Type_ row = "translation"
      ∧ models.Task.Input row = "hello".
Proof.
  apply (CreateTask_enqueue_failure ex_t0 (mkStores ex_db ex_down) ex_translate
           ex_model ex_down).
  - reflexivity.
  - reflexivity.
Defined.

(** ** C1 *)


(** The other order of events: the worker has started task 1 when the
    cancel arrives.  The row is cancelled and the in-flight entry stays
    where it is; when the adapter returns, the worker writes completed over
    the row and acks the entry. *)
Example cancel_while_running_is_overwritten :
  let task := new_task ex_t0 1 ex_translate in
  let s1 := (CreateTask ex_t0 (mkStores ex_db ex_empty) ex_translate).1 in
  let r2 := (DequeueTask ex_t1 (redis s1) 1).1 in
  let s2 := (worker.executeTask_start ex_t1 (mkStores (db s1) r2) task).1 in
  let s3 := (CancelTask ex_t1 s2 1).1 in
  let s4 := (worker.executeTask_finish ex_t2 s3 task ex_model
               (worker.executeTaskByType task ex_model)).1 in
  processing r2 = [(mkQueueItem 1 1 2 ex_t0, 1005)]
  ∧ models.Task.Status <$> tasks_table (db s2) !! 1%N = Some models.TaskStatusRunning
  ∧ models.Task.Status <$> tasks_table (db s3) !! 1%N = Some models.TaskStatusCancelled
  ∧ processing (redis s3) = [(mkQueueItem 1 1 2 ex_t0, 1005)]
  ∧ models.Task.Status <$> tasks_table (db s4) !! 1%N = Some models.TaskStatusCompleted
  ∧ processing (redis s4) = [].
Proof. vm_compute. repeat split. Qed.



(** ** C2 *)

(** C2, as stated, fails: the adapter of task 1 fails on its first run, with
    no retry used of three; the worker leaves the row failed with the retry
    count still 0 and [started_at] still set, and the five queue structures
    empty: nothing was requeued. *)
Lemma C2_first_failure_is_final :
  let s1 := (CreateTask ex_t0 (mkStores ex_db ex_empty) ex_generate).1 in
  let s2 := (worker.processNextTask ex_worker ex_t1 ex_t2 s1).1 in
  worker.executeTaskByType (new_task ex_t0 1 ex_generate) ex_model
  = inl "unsupported model type: custom"
  ∧ tasks_table (db s2) !! 1%N
    = Some (models.Task.mk 1 1 "text-generation" "hello" None
              models.TaskStatusFailed 2 0 3
              (Some "unsupported model type: custom")
              (Some ex_t1) (Some ex_t2) ex_t0)
  ∧ redis s2 = ex_empty
  ∧ models.Task.Status <$> tasks_table (db s2) !! 1%N ≠ Some models.TaskStatusPending.
Proof. vm_compute. repeat split. discriminate. Qed.

(** C2, amended: for every task whose adapter invocation fails, whatever its
    retry count, [executeTask] returns the error and leaves the row failed
    with [error_message] and [completed_at] set, [started_at] as set at the
    start and [retry_count] unchanged; nothing is requeued: the lanes and
    the delayed set are unchanged.  The in-flight entry is acked: while the
    store answers, the first member of the processing set that carries the
    task id is removed from it, and the other members keep their places and
    scores. *)
Theorem executeTask_adapter_failure (started finished : time.Time) (s : Stores)
    (task row : models.Task.t) (model : models.Model.t) (msg : string) :
  tasks_table (db s) !! models.Task.ID task = Some row →
  models_table (db s) !! models.Task.ModelID task = Some model →
  worker.executeTaskByType task model = inl msg →
  (worker.executeTask started finished s task).2
  = Some (Wrapf "task execution failed" (Errorf msg))
  ∧ tasks_table (db (worker.executeTask started finished s task).1)
      !! models.Task.ID task
    = Some (models.Task.mk (models.Task.ID row) (models.Task.ModelID row)
              (models.Task.Type_ row) (models.Task.Input row)
              (models.Task.Output row) models.TaskStatusFailed
              (models.Task.Priority row) (models.Task.RetryCount row)
              (models.Task.MaxRetries row) (Some msg) (Some started)
              (Some finished) (models.Task.CreatedAt row))
  ∧ redis (worker.executeTask started finished s task).1
    = (queue.CompleteTask (redis s) (models.Task.ID task)).1
  ∧ high (redis (worker.executeTask started finished s task).1) = high (redis s)
  ∧ medium (redis (worker.executeTask started finished s task).1) = medium (redis s)
  ∧ low (redis (worker.executeTask started finished s task).1) = low (redis s)
  ∧ delayed (redis (worker.executeTask started finished s task).1) = delayed (redis s)
  ∧ (healthy (redis s) →
     ∀ pre item score post,
       processing (redis s) = pre ++ (item, score) :: post →
       NoDup (processing (redis s)).*1 →
       Forall (λ it, TaskID it ≠ models.Task.ID task) pre.*1 →
       TaskID item = models.Task.ID task →
       processing (redis (worker.executeTask started finished s task).1)
       = pre ++ post).
Proof.
  intros Hrow Hmodel Hadapter.
  assert (worker.executeTask started finished s task
          = worker.executeTask_finish finished
              (mkStores (StartTask started (db s) (models.Task.ID task)).1 (redis s))
              task model (inl msg)) as ->.
  { unfold worker.executeTask, worker.executeTask_start. simpl.
    unfold GetModel. rewrite models_table_addTaskLog. simpl.
    by rewrite Hmodel, Hadapter. }
  unfold worker.executeTask_finish.
  cbn [fst snd db redis Datatypes.fst Datatypes.snd].
  split; [done|]. split.
  - unfold IncrementRequestCount, alter_model.
    cbn [fst Datatypes.fst tasks_table].
    rewrite lookup_FailTask, lookup_StartTask, Hrow. simpl. by destruct row.
  - split; [done|].
    destruct (CompleteTask_keeps_lanes (redis s) (models.Task.ID task))
      as (Hh & Hm & Hl & Hd).
    split; [done|]. split; [done|]. split; [done|]. split; [done|].
    intros H pre item score post Hp Hnodup Hpre Hitem.
    by rewrite (CompleteTask_first (redis s) (models.Task.ID task) pre post item score).
Qed.

(** The amended C2 at task 1, started, whose adapter fails: the row is
    failed with its retry count still 0, and of the two claims in the
    processing set the one of task 1 is gone and the one of task 7 stays. *)
Lemma executeTask_adapter_failure_witness :
  tasks_table
    (db (worker.executeTask ex_t1 ex_t2 ex_generate_stores ex_generate_task).1) !! 1%N
  = Some (models.Task.mk 1 1 "text-generation" "hello" None
            models.TaskStatusFailed 2 0 3
            (Some "unsupported model type: custom") (Some ex_t1) (Some ex_t2) ex_t0)
  ∧ processing
      (redis (worker.executeTask ex_t1 ex_t2 ex_generate_stores ex_generate_task).1)
    = [(ex_item7, 1000)].
Proof.
  destruct (executeTask_adapter_failure ex_t1 ex_t2 ex_generate_stores
              ex_generate_task ex_generate_task ex_model
              "unsupported model type: custom")
    as (_ & Hrow & _ & _ & _ & _ & _ & Hack).
  - reflexivity.
  - reflexivity.
  - reflexivity.
  - split; [exact Hrow|].
    apply (Hack eq_refl [(ex_item7, 1000)] (mkQueueItem 1 1 2 ex_t0) 1005 []).
    + reflexivity.
    + apply NoDup_cons. split; [|apply NoDup_singleton].
      rewrite list_elem_of_singleton. discriminate.
    + repeat constructor. discriminate.
    + reflexivity.
Defined.

(** * Further properties *)

(** ** [DequeueTask]: what it returns, and what it keeps *)

Lemma rpop_None {A : Type} (l : list A) : rpop l = None → l = [].
Proof.
  destruct l as [|x l]; [done|]. simpl. by destruct (rpop l) as [[l' y]|].
Qed.

Lemma rpop_Some {A : Type} (l l' : list A) (x : A) :
  rpop l = Some (l', x) → l = l' ++ [x].
Proof.
  revert l' x. induction l as [|y l IH]; intros l' x; simpl; [done|].
  destruct (rpop l) as [[l'' z]|] eqn:Hl.
  - intros [= <- <-]. simpl. f_equal. by apply IH.
  - intros [= <- <-]. by rewrite (rpop_None _ Hl).
Qed.

Lemma acceptable_true m x : acceptable m x = true → m = 0%N ∨ ModelID x = m.
Proof.
  unfold acceptable. destruct (decide (m = 0%N)) as [->|Hm]; [by left|].
  destruct (decide (ModelID x = m)) as [Hx|Hx]; [by right|].
  by rewrite !bool_decide_eq_true_2.
Qed.

Lemma acceptable_false m x : acceptable m x = false → m ≠ 0%N ∧ ModelID x ≠ m.
Proof.
  unfold acceptable. rewrite negb_false_iff, andb_true_iff.
  by rewrite !bool_decide_eq_true.
Qed.

Lemma pick_set_lane_notin m r key l queues :
  key ∉ queues → pick m (set_lane r key l) queues = pick m r queues.
Proof.
  induction queues as [|k queues IH]; [done|].
  rewrite not_elem_of_cons. intros [Hk Hqueues]. simpl.
  rewrite lane_set_lane_ne by done. by rewrite IH.
Qed.

Lemma DequeueTask_range_result now m queues :
  ∀ r, healthy r → NoDup queues →
       (DequeueTask_range now m queues r).2 = inr (pick m r queues).
Proof.
  induction queues as [|key queues IH]; intros r H Hnodup; [done|].
  apply NoDup_cons in Hnodup as [Hkey Hnodup].
  cbn [pick]. destruct (rpop (lane r key)) as [[l v]|] eqn:Hpop.
  - apply rpop_Some in Hpop. rewrite Hpop, last_snoc.
    destruct (acceptable m v) eqn:Hacc.
    + apply acceptable_true in Hacc.
      by rewrite (DequeueTask_range_hit now m key queues r l v).
    + apply acceptable_false in Hacc as [Hm Hv].
      rewrite (DequeueTask_range_miss now m key queues r l v) by done.
      rewrite IH by (by try apply healthy_set_lane).
      by rewrite pick_set_lane_notin.
  - apply rpop_None in Hpop.
    rewrite DequeueTask_range_skip_empty by done.
    rewrite Hpop. simpl. by apply IH.
Qed.

(** X1: while the store answers, [DequeueTask] returns the tail entry of the
    first lane, in the order high, medium, low, whose tail entry is of the
    caller's model (any model for a caller with model 0), and nothing when no
    lane has such a tail. *)
Theorem DequeueTask_result (now : time.Time) (r : Redis) (m : N) :
  healthy r →
  (DequeueTask now r m).2
  = inr (pick m r [HighPriorityQueue; MediumPriorityQueue; LowPriorityQueue]).
Proof.
  intros H. apply DequeueTask_range_result; [done|].
  repeat (apply NoDup_cons; split;
          [rewrite list_elem_of_In; simpl; intuition discriminate|]).
  apply NoDup_nil_2.
Qed.

(** X1 at the worked lanes: a worker of model 2 gets nothing, because the
    tail of the medium lane is of model 1; a worker of model 1 gets A. *)
Lemma DequeueTask_result_witness :
  (DequeueTask ex_t2 ex_lanes 2).2 = inr None
  ∧ (DequeueTask ex_t2 ex_lanes 1).2 = inr (Some ex_itemA).
Proof.
  split.
  - apply (DequeueTask_result ex_t2 ex_lanes 2). reflexivity.
  - apply (DequeueTask_result ex_t2 ex_lanes 1). reflexivity.
Defined.

Lemma delayed_set_lane r key l : delayed (set_lane r key l) = delayed r.
Proof. by destruct key. Qed.

Lemma processing_set_lane r key l : processing (set_lane r key l) = processing r.
Proof. by destruct key. Qed.

Lemma DequeueTask_range_conserves now m queues :
  ∀ r r' res,
    healthy r →
    DequeueTask_range now m queues r = (r', res) →
    healthy r' ∧ delayed r' = delayed r
    ∧ match res with
      | inl _ => False
      | inr None => processing r' = processing r ∧ ∀ k, lane r' k ≡ₚ lane r k
      | inr (Some x) =>
          acceptable m x = true
          ∧ processing r' = zinsert (x, time.Unix now) (zremove x (processing r))
          ∧ ∃ key, lane r key ≡ₚ x :: lane r' key
                   ∧ ∀ k, k ≠ key → lane r' k ≡ₚ lane r k
      end.
Proof.
  induction queues as [|key queues IH]; intros r r' res H.
  - simpl. intros [= <- <-]. by repeat split.
  - destruct (rpop (lane r key)) as [[l v]|] eqn:Hpop.
    + apply rpop_Some in Hpop. destruct (acceptable m v) eqn:Hacc.
      * rewrite (DequeueTask_range_hit now m key queues r l v)
          by (by try apply acceptable_true).
        intros [= <- <-]. split; [by apply healthy_claimed, healthy_set_lane|].
        split; [by destruct key|]. split; [done|].
        split; [by destruct key|]. exists key. split.
        -- rewrite lane_claimed, lane_set_lane_eq, Hpop.
           by rewrite Permutation_app_comm.
        -- intros k Hk. by rewrite lane_claimed, lane_set_lane_ne.
      * apply acceptable_false in Hacc as [Hm Hv].
        rewrite (DequeueTask_range_miss now m key queues r l v) by done.
        intros Hrest.
        apply IH in Hrest as (H' & Hd & Hres); [|by apply healthy_set_lane].
        assert (∀ k, lane (set_lane r key (v :: l)) k ≡ₚ lane r k) as Hperm.
        { intros k. destruct (decide (key = k)) as [<-|Hk].
          - rewrite lane_set_lane_eq, Hpop. by rewrite Permutation_app_comm.
          - by rewrite lane_set_lane_ne. }
        split; [done|]. rewrite delayed_set_lane in Hd. split; [done|].
        rewrite processing_set_lane in Hres.
        destruct res as [err|[x|]]; [done| |].
        -- destruct Hres as (Hx & Hp & key' & Hkey' & Hothers).
           split; [done|]. split; [done|]. exists key'. split.
           ++ by rewrite <- Hperm.
           ++ intros k Hk. rewrite <- Hperm. by apply Hothers.
        -- destruct Hres as [Hp Hlanes]. split; [done|].
           intros k. by rewrite <- Hperm.
    + apply rpop_None in Hpop.
      rewrite DequeueTask_range_skip_empty by done. by apply IH.
Qed.

(** X2: while the store answers, [DequeueTask] returns no error and neither
    drops nor duplicates an entry.  When it returns nothing, the processing
    set and the delayed set are as before and every lane holds the entries it
    held (in a possibly rotated order).  When it returns an entry, that entry
    is of the caller's model (or the caller passed model 0), it has left one
    lane and is in the processing set at the current time, and the other
    entries of the lanes are all still there. *)
Theorem DequeueTask_conserves (now : time.Time) (r r' : Redis) (m : N)
    (res : error + option QueueItem) :
  healthy r →
  DequeueTask now r m = (r', res) →
  healthy r' ∧ delayed r' = delayed r
  ∧ match res with
    | inl _ => False
    | inr None => processing r' = processing r ∧ ∀ k, lane r' k ≡ₚ lane r k
    | inr (Some x) =>
        acceptable m x = true
        ∧ processing r' = zinsert (x, time.Unix now) (zremove x (processing r))
        ∧ ∃ key, lane r key ≡ₚ x :: lane r' key
                 ∧ ∀ k, k ≠ key → lane r' k ≡ₚ lane r k
    end.
Proof. intros H Hd. by apply (DequeueTask_range_conserves _ _ _ _ _ _ H Hd). Qed.

(** X2 at the worked lanes, for a worker of model 2: nothing is returned and
    the medium lane still holds A and B. *)
Lemma DequeueTask_conserves_witness :
  processing (DequeueTask ex_t2 ex_lanes 2).1 = []
  ∧ lane (DequeueTask ex_t2 ex_lanes 2).1 MediumPriorityQueue ≡ₚ [ex_itemB; ex_itemA].
Proof.
  destruct (DequeueTask_conserves ex_t2 ex_lanes (DequeueTask ex_t2 ex_lanes 2).1 2
              (inr None)) as (_ & _ & Hp & Hlanes).
  - reflexivity.
  - reflexivity.
  - split; [exact Hp|]. apply (Hlanes MediumPriorityQueue).
Defined.

Lemma LPush_down r key v : calls_left r = Some 0%nat → LPush r key v = None.
Proof. unfold LPush, roundtrip. by intros ->. Qed.

Lemma moveToProcessing_down now r item :
  calls_left r = Some 0%nat → moveToProcessing now r item = (r, Some RedisError).
Proof. unfold moveToProcessing, ZAdd, roundtrip. by intros ->. Qed.

Lemma BRPop_spend_snoc r key l x n :
  calls_left r = Some (S n) → lane r key = l ++ [x] →
  BRPop r key = Some (set_lane (spent r n) key l, Some x).
Proof.
  intros Hc Hl. unfold BRPop, roundtrip. rewrite Hc. simpl.
  replace (lane _ key) with (lane r key) by by destruct key.
  by rewrite Hl, rpop_snoc.
Qed.

Lemma DequeueTask_range_spend_empty now m key queues r n :
  calls_left r = Some (S n) → lane r key = [] →
  DequeueTask_range now m (key :: queues) r
  = DequeueTask_range now m queues (spent r n).
Proof.
  intros Hc Hl. simpl. unfold BRPop, roundtrip. rewrite Hc. simpl.
  replace (lane _ key) with (lane r key) by by destruct key.
  by rewrite Hl.
Qed.

(** X3: the put-back after a failed [moveToProcessing] is not checked.  When
    the connection is lost right after the pop of an acceptable entry (the
    server answers the pops up to this one and nothing after), [DequeueTask]
    returns the error and the entry is left in no lane and in no set. *)
Theorem DequeueTask_disconnect_loses_entry (now : time.Time) (r : Redis)
    (key : ListKey) (l : list QueueItem) (x : QueueItem) (m : N) :
  calls_left r = Some (S (length (scanned_before key))) →
  Forall (λ k, lane r k = []) (scanned_before key) →
  lane r key = l ++ [x] →
  acceptable m x = true →
  (DequeueTask now r m).2 = inl RedisError
  ∧ lane (DequeueTask now r m).1 key = l
  ∧ (∀ k, k ≠ key → lane (DequeueTask now r m).1 k = lane r k)
  ∧ processing (DequeueTask now r m).1 = processing r
  ∧ delayed (DequeueTask now r m).1 = delayed r.
Proof.
  intros Hcalls Hbefore Hl Hacc.
  assert (bool_decide (m ≠ 0%N) && bool_decide (ModelID x ≠ m) = false) as Hcond.
  { unfold acceptable in Hacc. by apply negb_true_iff in Hacc. }
  assert (∀ r1 queues, calls_left r1 = Some 1%nat → lane r1 key = l ++ [x] →
            DequeueTask_range now m (key :: queues) r1
            = (set_lane (spent r1 0) key l, inl RedisError)) as Hlast.
  { intros r1 queues Hc1 Hl1. simpl.
    rewrite (BRPop_spend_snoc r1 key l x 0) by done. rewrite Hcond.
    rewrite moveToProcessing_down, LPush_down by by destruct key. done. }
  unfold DequeueTask. destruct key; simpl in Hbefore, Hcalls.
  - rewrite Hlast by done. simpl. repeat split. by intros [].
  - apply Forall_cons_1 in Hbefore as [Hhi _].
    rewrite (DequeueTask_range_spend_empty now m _ _ r 1) by done.
    rewrite Hlast by done. simpl. repeat split. by intros [].
  - apply Forall_cons_1 in Hbefore as [Hhi Hbefore].
    apply Forall_cons_1 in Hbefore as [Hmd _].
    rewrite (DequeueTask_range_spend_empty now m _ _ r 2) by done.
    rewrite (DequeueTask_range_spend_empty now m _ _ (spent r 2) 1) by done.
    rewrite Hlast by done. simpl. repeat split. by intros [].
Qed.

(** X3 with one answer left and A alone in the high lane. *)
Lemma DequeueTask_disconnect_loses_entry_witness :
  (DequeueTask ex_t0 (mkRedis (Some 1%nat) [ex_itemA] [] [] [] []) 1).2 = inl RedisError
  ∧ (DequeueTask ex_t0 (mkRedis (Some 1%nat) [ex_itemA] [] [] [] []) 1).1
    = mkRedis (Some 0%nat) [] [] [] [] [].
Proof.
  destruct (DequeueTask_disconnect_loses_entry ex_t0
              (mkRedis (Some 1%nat) [ex_itemA] [] [] [] []) HighPriorityQueue
              [] ex_itemA 1) as (Herr & _).
  - reflexivity.
  - constructor.
  - reflexivity.
  - reflexivity.
  - split; [exact Herr | reflexivity].
Defined.

(** ** Order of dispatch across the lanes *)

Lemma enqueue_each_lanes tasks :
  ∀ r, healthy r →
       ∃ r', enqueue_each r tasks = (r', replicate (length tasks) None)
             ∧ healthy r'
             ∧ processing r' = processing r ∧ delayed r' = delayed r
             ∧ ∀ key, lane r' key
                      = reverse (lane_items key (item_of_task <$> tasks)) ++ lane r key.
Proof.
  induction tasks as [|task tasks IH]; intros r H.
  - exists r. by repeat split.
  - simpl. rewrite EnqueueTask_healthy by done.
    set (k0 := getQueueKey (models.Task.Priority task)).
    destruct (IH (set_lane r k0 (item_of_task task :: lane r k0)))
      as (r' & -> & H' & Hp & Hd & Hlanes); [by apply healthy_set_lane|].
    exists r'. split; [done|]. split; [done|].
    split; [by rewrite Hp, processing_set_lane|].
    split; [by rewrite Hd, delayed_set_lane|].
    intros key. rewrite Hlanes. unfold lane_items.
    rewrite (filter_cons (λ it, getQueueKey (Priority it) = key)).
    change (getQueueKey (Priority (item_of_task task))) with k0.
    destruct (decide (k0 = key)) as [<-|Hne].
    + by rewrite lane_set_lane_eq, reverse_cons, <- app_assoc.
    + by rewrite lane_set_lane_ne.
Qed.

Lemma dequeue_each_drain m key items :
  ∀ nows r,
    healthy r →
    Forall (λ k, lane r k = []) (scanned_before key) →
    lane r key = reverse items →
    Forall (λ x, ModelID x = m) items →
    length nows = length items →
    ∃ r', dequeue_each nows m r = (r', (λ x, inr (Some x)) <$> items)
          ∧ healthy r' ∧ lane r' key = []
          ∧ ∀ k, k ≠ key → lane r' k = lane r k.
Proof.
  induction items as [|x items IH]; intros nows r H Hbefore Hl Hm Hlen.
  - destruct nows; [|done]. exists r. by repeat split.
  - destruct nows as [|now nows]; [done|]. simpl.
    apply Forall_cons_1 in Hm as [Hx Hm]. rewrite reverse_cons in Hl.
    rewrite (DequeueTask_hit now m key r (reverse items) x) by auto.
    destruct (IH nows (claimed now (set_lane r key (reverse items)) x))
      as (r' & -> & H' & Hkey & Hothers).
    + by apply healthy_claimed, healthy_set_lane.
    + apply Forall_forall. intros k Hk. rewrite lane_claimed.
      rewrite lane_set_lane_ne by (apply not_eq_sym; by apply scanned_before_ne).
      by apply (proj1 (Forall_forall _ _) Hbefore).
    + by rewrite lane_claimed, lane_set_lane_eq.
    + done.
    + by injection Hlen.
    + exists r'. repeat split; try done.
      intros k Hk. rewrite Hothers by done.
      by rewrite lane_claimed, lane_set_lane_ne.
Qed.

Lemma dequeue_each_app m nows1 nows2 :
  ∀ r, dequeue_each (nows1 ++ nows2) m r
       = (let '(r1, xs) := dequeue_each nows1 m r in
          let '(r2, ys) := dequeue_each nows2 m r1 in
          (r2, xs ++ ys)).
Proof.
  induction nows1 as [|now nows1 IH]; intros r; simpl.
  - by destruct (dequeue_each nows2 m r).
  - destruct (DequeueTask now r m) as [r1 res]. rewrite IH.
    destruct (dequeue_each nows1 m r1) as [r2 xs].
    by destruct (dequeue_each nows2 m r2).
Qed.

Lemma lane_items_lengths items :
  (length (lane_items HighPriorityQueue items)
   + length (lane_items MediumPriorityQueue items)
   + length (lane_items LowPriorityQueue items) = length items)%nat.
Proof.
  unfold lane_items. induction items as [|x items IH]; [done|].
  rewrite !(filter_cons (λ it, getQueueKey (Priority it) = _)).
  destruct (getQueueKey (Priority x)); simpl; lia.
Qed.

(** X4: tasks of one model, enqueued in any order with any priorities while
    the three lanes are empty, are handed to a worker of that model lane by
    lane: first the entries of the high lane, then those of the medium lane
    (where priorities other than 1, 2 and 3 end up as well), then those of
    the low lane, each lane in the order of insertion. *)
Theorem dispatch_order (r : Redis) (tasks : list models.Task.t)
    (nows : list time.Time) (m : N) :
  healthy r →
  (∀ k, lane r k = []) →
  Forall (λ t, models.Task.ModelID t = m) tasks →
  length nows = length tasks →
  (dequeue_each nows m (enqueue_each r tasks).1).2
  = (λ x, inr (Some x))
      <$> (lane_items HighPriorityQueue (item_of_task <$> tasks)
           ++ lane_items MediumPriorityQueue (item_of_task <$> tasks)
           ++ lane_items LowPriorityQueue (item_of_task <$> tasks)).
Proof.
  intros H Hempty Hm Hlen.
  destruct (enqueue_each_lanes tasks r H) as (r0 & -> & H0 & _ & _ & Hlanes).
  simpl. set (items := item_of_task <$> tasks) in *.
  assert (∀ key, lane r0 key = reverse (lane_items key items)) as Hlanes'.
  { intros key. by rewrite Hlanes, Hempty, app_nil_r. }
  assert (∀ key, Forall (λ x, ModelID x = m) (lane_items key items)) as Hmodel.
  { intros key. apply Forall_forall. intros x Hx.
    apply list_elem_of_filter in Hx as [_ Hx].
    apply list_elem_of_fmap in Hx as (t & -> & Ht).
    by apply (proj1 (Forall_forall _ _) Hm). }
  pose proof (lane_items_lengths items) as Hsum.
  assert (length items = length tasks) as Hitems by apply length_fmap.
  set (nh := length (lane_items HighPriorityQueue items)) in *.
  set (nm := length (lane_items MediumPriorityQueue items)) in *.
  set (nl := length (lane_items LowPriorityQueue items)) in *.
  rewrite <- (take_drop nh nows), <- (take_drop nm (drop nh nows)).
  rewrite dequeue_each_app.
  destruct (dequeue_each_drain m HighPriorityQueue
              (lane_items HighPriorityQueue items) (take nh nows) r0)
    as (r1 & -> & H1 & Hhi1 & Hothers1); try done.
  { rewrite length_take. lia. }
  rewrite dequeue_each_app.
  destruct (dequeue_each_drain m MediumPriorityQueue
              (lane_items MediumPriorityQueue items) (take nm (drop nh nows)) r1)
    as (r2 & -> & H2 & Hmd2 & Hothers2); try done.
  { by repeat constructor. }
  { by rewrite Hothers1. }
  { rewrite length_take, length_drop. lia. }
  destruct (dequeue_each_drain m LowPriorityQueue
              (lane_items LowPriorityQueue items) (drop nm (drop nh nows)) r2)
    as (r3 & -> & H3 & Hlo3 & Hothers3); try done.
  { repeat constructor; [by rewrite Hothers2 | done]. }
  { by rewrite Hothers2, Hothers1. }
  { rewrite !length_drop. lia. }
  by rewrite !fmap_app.
Qed.

(** X4 at four tasks with priorities low, high, medium and 9: they come out
    as 32 (high), 33 and 34 (medium lane), 31 (low). *)
Lemma dispatch_order_witness :
  (dequeue_each [ex_t1; ex_t1; ex_t2; ex_t2] 1
     (enqueue_each ex_empty ex_mixed_tasks).1).2
  = [inr (Some (mkQueueItem 32 1 3 ex_t0)); inr (Some (mkQueueItem 33 1 2 ex_t0));
     inr (Some (mkQueueItem 34 1 9 ex_t0)); inr (Some (mkQueueItem 31 1 1 ex_t0))].
Proof.
  apply (dispatch_order ex_empty ex_mixed_tasks [ex_t1; ex_t1; ex_t2; ex_t2] 1).
  - reflexivity.
  - by intros [].
  - repeat constructor.
  - reflexivity.
Defined.

(** ** The promoter and the reaper *)

Lemma filter_ext_elem {A : Type} (P Q : A → Prop)
    `{!∀ x, Decision (P x), !∀ x, Decision (Q x)} (l : list A) :
  (∀ x, x ∈ l → (P x ↔ Q x)) → filter P l = filter Q l.
Proof.
  induction l as [|a l IH]; intros Hiff; [done|].
  rewrite !filter_cons.
  assert (filter P l = filter Q l) as ->.
  { apply IH. intros x Hx. apply Hiff. by right. }
  destruct (decide (P a)) as [HP|HP], (decide (Q a)) as [HQ|HQ]; try done.
  - destruct HQ. apply Hiff; [left|done].
  - destruct HP. apply Hiff; [left|done].
Qed.

Lemma filter_none {A : Type} (P : A → Prop) `{!∀ x, Decision (P x)} (l : list A) :
  Forall (λ x, ¬ P x) l → filter P l = [].
Proof.
  induction 1 as [|a l Ha _ IH]; [done|]. by rewrite filter_cons_False.
Qed.

Lemma filter_all {A : Type} (P : A → Prop) `{!∀ x, Decision (P x)} (l : list A) :
  Forall P l → filter P l = l.
Proof.
  induction 1 as [|a l Ha _ IH]; [done|]. by rewrite filter_cons_True, IH.
Qed.

Lemma fst_inj_of_NoDup (z : ZSet) (e e' : QueueItem * Z) :
  NoDup z.*1 → e ∈ z → e' ∈ z → e.1 = e'.1 → e = e'.
Proof.
  induction z as [|a z IH]; [by intros _ ?%elem_of_nil|].
  rewrite fmap_cons, NoDup_cons, !elem_of_cons.
  intros [Ha Hz] [->|He] [->|He'] Heq; try done.
  - destruct Ha. rewrite Heq. by apply list_elem_of_fmap_2.
  - destruct Ha. rewrite <- Heq. by apply list_elem_of_fmap_2.
  - by apply IH.
Qed.

Lemma ZRangeByScore_healthy r zkey lo hi :
  healthy r →
  ZRangeByScore r zkey lo hi = Some (r, (filter (scored_within lo hi) (zset r zkey)).*1).
Proof. intros H. unfold ZRangeByScore. by rewrite (roundtrip_healthy _ H). Qed.

Lemma zremove_filter_members (z : ZSet) (member : QueueItem) (rest : list QueueItem) :
  filter (λ e, e.1 ∉ rest) (zremove member z)
  = filter (λ e, e.1 ∉ member :: rest) z.
Proof.
  unfold zremove.
  rewrite (list_filter_filter (λ e : QueueItem * Z, e.1 ∉ rest)
             (λ e : QueueItem * Z, e.1 ≠ member)).
  apply list_filter_iff.
  intros e. rewrite not_elem_of_cons. tauto.
Qed.

Lemma ProcessDelayedTasks_range_cons r result results :
  healthy r →
  ProcessDelayedTasks_range r (result :: results)
  = ProcessDelayedTasks_range
      (set_zset (set_lane r (getQueueKey (Priority result))
                   (result :: lane r (getQueueKey (Priority result))))
         DelayedQueue (zremove result (delayed r)))
      results.
Proof.
  intros H. simpl. rewrite LPush_healthy by done. simpl.
  rewrite ZRem_healthy by by apply healthy_set_lane. simpl.
  by rewrite delayed_set_lane.
Qed.

(** The loop of the promoter, while the store answers. *)
Lemma ProcessDelayedTasks_range_healthy results :
  ∀ r, healthy r →
       healthy (ProcessDelayedTasks_range r results)
       ∧ processing (ProcessDelayedTasks_range r results) = processing r
       ∧ delayed (ProcessDelayedTasks_range r results)
         = filter (λ e, e.1 ∉ results) (delayed r)
       ∧ ∀ key, lane (ProcessDelayedTasks_range r results) key
                = reverse (lane_items key results) ++ lane r key.
Proof.
  induction results as [|result results IH]; intros r H.
  - simpl. repeat split; [done|].
    symmetry. apply filter_all, Forall_forall. intros e _. apply not_elem_of_nil.
  - rewrite ProcessDelayedTasks_range_cons by done.
    set (k0 := getQueueKey (Priority result)).
    edestruct IH as (H' & Hp & Hd & Hlanes);
      [|split; [exact H'|]; split; [|split]].
    + by apply healthy_set_zset, healthy_set_lane.
    + rewrite Hp. simpl. apply processing_set_lane.
    + rewrite Hd. simpl. apply zremove_filter_members.
    + intros key. rewrite Hlanes, lane_set_zset. unfold lane_items.
      rewrite (filter_cons (λ it, getQueueKey (Priority it) = key)).
      fold k0. destruct (decide (k0 = key)) as [<-|Hne].
      * by rewrite lane_set_lane_eq, reverse_cons, <- app_assoc.
      * by rewrite lane_set_lane_ne.
Qed.

(** X5: while the store answers, [ProcessDelayedTasks] changes nothing when
    no delayed entry is scored between 0 and the current unix time; entries
    with a later score, and entries with a negative score, stay delayed. *)
Theorem ProcessDelayedTasks_nothing_due (now : time.Time) (r : Redis) :
  healthy r →
  Forall (λ e, e.2 < 0 ∨ time.Unix now < e.2) (delayed r) →
  ProcessDelayedTasks now r = (r, None).
Proof.
  intros H Hnone. unfold ProcessDelayedTasks.
  rewrite ZRangeByScore_healthy by done. cbn [zset].
  rewrite (filter_none (scored_within 0 (time.Unix now))); [done|].
  eapply Forall_impl; [exact Hnone|]. unfold scored_within. intros e. simpl. lia.
Qed.

(** X5 with A delayed until second 1060 and B scored -5, at second 1009. *)
Lemma ProcessDelayedTasks_nothing_due_witness :
  ProcessDelayedTasks ex_t2 (mkRedis None [] [] [] [] [(ex_itemB, -5); (ex_itemA, 1060)])
  = (mkRedis None [] [] [] [] [(ex_itemB, -5); (ex_itemA, 1060)], None).
Proof.
  apply (ProcessDelayedTasks_nothing_due ex_t2).
  - reflexivity.
  - apply Forall_cons. split; [left; reflexivity|].
    apply Forall_cons. split; [right; reflexivity|]. apply Forall_nil_2.
Defined.

(** X6: while the store answers, [ProcessDelayedTasks] returns no error,
    removes from the delayed set exactly the entries scored between 0 and
    the current unix time, and puts each of them at the head of the lane of
    its priority, in the order of their scores (the last one ends up first);
    the processing set is not touched. *)
Theorem ProcessDelayedTasks_promotes (now : time.Time) (r : Redis) :
  healthy r →
  NoDup (delayed r).*1 →
  (ProcessDelayedTasks now r).2 = None
  ∧ delayed (ProcessDelayedTasks now r).1
    = filter (λ e, ¬ scored_within 0 (time.Unix now) e) (delayed r)
  ∧ processing (ProcessDelayedTasks now r).1 = processing r
  ∧ ∀ key,
      lane (ProcessDelayedTasks now r).1 key
      = reverse (lane_items key
                   (filter (scored_within 0 (time.Unix now)) (delayed r)).*1)
        ++ lane r key.
Proof.
  intros H Hnodup. unfold ProcessDelayedTasks.
  rewrite ZRangeByScore_healthy by done. cbn [zset fst snd].
  destruct (ProcessDelayedTasks_range_healthy
              (filter (scored_within 0 (time.Unix now)) (delayed r)).*1 r H)
    as (_ & Hp & Hd & Hlanes).
  split; [done|]. split; [|by split].
  rewrite Hd. apply filter_ext_elem. intros e He.
  rewrite list_elem_of_fmap. split.
  - intros Hnot Hwithin. apply Hnot. exists e. split; [done|].
    by apply list_elem_of_filter.
  - intros Hnot (e' & Heq & He'). apply list_elem_of_filter in He' as [Hwithin He'].
    apply Hnot. by rewrite (fst_inj_of_NoDup (delayed r) e e').
Qed.

(** X6 at second 1009: B (due at 1005) is promoted to the medium lane, A
    (due at 1060) stays delayed. *)
Lemma ProcessDelayedTasks_promotes_witness :
  delayed (ProcessDelayedTasks ex_t2
             (mkRedis None [] [] [] [] [(ex_itemB, 1005); (ex_itemA, 1060)])).1
  = [(ex_itemA, 1060)]
  ∧ lane (ProcessDelayedTasks ex_t2
            (mkRedis None [] [] [] [] [(ex_itemB, 1005); (ex_itemA, 1060)])).1
      MediumPriorityQueue
    = [ex_itemB].
Proof.
  destruct (ProcessDelayedTasks_promotes ex_t2
              (mkRedis None [] [] [] [] [(ex_itemB, 1005); (ex_itemA, 1060)]))
    as (_ & Hd & _ & Hlanes).
  - reflexivity.
  - simpl. repeat constructor; rewrite list_elem_of_In; simpl; intuition discriminate.
  - split; [exact Hd | exact (Hlanes MediumPriorityQueue)].
Defined.

Lemma elem_of_zinsert (z : ZSet) (x e : QueueItem * Z) :
  e ∈ zinsert x z ↔ e = x ∨ e ∈ z.
Proof.
  induction z as [|a z IH]; simpl.
  - rewrite list_elem_of_singleton, elem_of_nil. tauto.
  - destruct (zless x a); rewrite !elem_of_cons; [tauto|]. rewrite IH. tauto.
Qed.

Lemma elem_of_zremove_pair (z : ZSet) (member : QueueItem) (e : QueueItem * Z) :
  e ∈ zremove member z ↔ e.1 ≠ member ∧ e ∈ z.
Proof.
  unfold zremove. apply (list_elem_of_filter (λ e0 : QueueItem * Z, e0.1 ≠ member)).
Qed.

Lemma zscore_zremove_ne (z : ZSet) (member other : QueueItem) :
  other ≠ member → zscore (zremove other z) member = zscore z member.
Proof.
  intros Hne. unfold zremove. induction z as [|e z IH]; [done|].
  rewrite (filter_cons (λ e0 : QueueItem * Z, e0.1 ≠ other)).
  destruct (decide (e.1 ≠ other)) as [He|He].
  - cbn [zscore]. destruct (decide (e.1 = member)); [done|apply IH].
  - apply dec_stable in He. cbn [zscore].
    rewrite decide_False by congruence. apply IH.
Qed.

Lemma zscore_zinsert_ne (z : ZSet) (member : QueueItem) (x : QueueItem * Z) :
  x.1 ≠ member → zscore (zinsert x z) member = zscore z member.
Proof.
  intros Hne. induction z as [|e z IH]; simpl.
  - by rewrite decide_False.
  - destruct (zless x e); simpl.
    + by rewrite decide_False.
    + by rewrite IH.
Qed.

Lemma zscore_zadd_eq (z : ZSet) (member : QueueItem) (score : Z) :
  zscore (zadd z member score) member = Some score.
Proof. apply zscore_zadd. Qed.

Lemma zscore_zadd_ne (z : ZSet) (member other : QueueItem) (score : Z) :
  other ≠ member → zscore (zadd z other score) member = zscore z member.
Proof.
  intros Hne. unfold zadd.
  by rewrite zscore_zinsert_ne, zscore_zremove_ne.
Qed.

Lemma zscore_foldl_zadd_notin (score : Z) (results : list QueueItem) (member : QueueItem) :
  ∀ z, member ∉ results →
       zscore (foldl (λ z0 it, zadd z0 it score) z results) member = zscore z member.
Proof.
  induction results as [|it results IH]; intros z; [done|].
  rewrite not_elem_of_cons. intros [Hne Hnotin]. simpl.
  rewrite IH by done. by apply zscore_zadd_ne.
Qed.

Lemma zscore_foldl_zadd_in (score : Z) (results : list QueueItem) (member : QueueItem) :
  ∀ z, member ∈ results →
       zscore (foldl (λ z0 it, zadd z0 it score) z results) member = Some score.
Proof.
  induction results as [|it results IH]; intros z; [by intros ?%elem_of_nil|].
  intros Hin. simpl. destruct (decide (member ∈ results)) as [Hrest|Hrest].
  - by apply IH.
  - apply elem_of_cons in Hin as [->|Hin]; [|done].
    rewrite zscore_foldl_zadd_notin by done. apply zscore_zadd_eq.
Qed.

Lemma enqueueDelayed_healthy now r item delay :
  healthy r →
  enqueueDelayed now r item delay
  = (set_zset r DelayedQueue (zadd (delayed r) item (time.AddUnix now delay)), None).
Proof. intros H. unfold enqueueDelayed. by rewrite ZAdd_healthy. Qed.

Lemma CleanupStuckTasks_range_cons cfg now r result results :
  healthy r →
  CleanupStuckTasks_range cfg now r (result :: results)
  = CleanupStuckTasks_range cfg now
      (set_zset
         (set_zset r DelayedQueue
            (zadd (delayed r) result (time.AddUnix now (config.RetryDelay cfg))))
         ProcessingQueue (zremove result (processing r)))
      results.
Proof.
  intros H. simpl. rewrite enqueueDelayed_healthy by done.
  by rewrite ZRem_healthy by by apply healthy_set_zset.
Qed.

(** The loop of the reaper, while the store answers. *)
Lemma CleanupStuckTasks_range_healthy cfg now results :
  ∀ r, healthy r →
       healthy (CleanupStuckTasks_range cfg now r results)
       ∧ (∀ key, lane (CleanupStuckTasks_range cfg now r results) key = lane r key)
       ∧ processing (CleanupStuckTasks_range cfg now r results)
         = filter (λ e, e.1 ∉ results) (processing r)
       ∧ delayed (CleanupStuckTasks_range cfg now r results)
         = foldl (λ z it, zadd z it (time.AddUnix now (config.RetryDelay cfg)))
             (delayed r) results.
Proof.
  induction results as [|result results IH]; intros r H.
  - simpl. repeat split; [done|].
    symmetry. apply filter_all, Forall_forall. intros e _. apply not_elem_of_nil.
  - rewrite CleanupStuckTasks_range_cons by done.
    edestruct IH as (H' & Hlanes & Hp & Hd);
      [|split; [exact H'|]; split; [|split]].
    + by repeat apply healthy_set_zset.
    + intros key. by rewrite Hlanes, !lane_set_zset.
    + rewrite Hp. simpl. apply zremove_filter_members.
    + by rewrite Hd.
Qed.

Lemma CleanupStuckTasks_healthy cfg now r :
  healthy r →
  CleanupStuckTasks cfg now r
  = (CleanupStuckTasks_range cfg now r
       (filter (scored_within 0 (time.AddUnix now (- config.TaskTimeout cfg)))
          (processing r)).*1,
     None).
Proof.
  intros H. unfold CleanupStuckTasks. by rewrite ZRangeByScore_healthy.
Qed.

(** X7: while the store answers, running [CleanupStuckTasks] a second time
    with the clock unchanged changes nothing: what the first run moved to
    the delayed set is not taken again. *)
Theorem CleanupStuckTasks_twice (cfg : config.QueueConfig) (now : time.Time)
    (r : Redis) :
  healthy r →
  CleanupStuckTasks cfg now (CleanupStuckTasks cfg now r).1
  = ((CleanupStuckTasks cfg now r).1, None).
Proof.
  intros H. rewrite (CleanupStuckTasks_healthy cfg now r H). cbn [fst].
  set (cutoff := time.AddUnix now (- config.TaskTimeout cfg)).
  set (due := (filter (scored_within 0 cutoff) (processing r)).*1).
  destruct (CleanupStuckTasks_range_healthy cfg now due r H) as (H' & _ & Hp & _).
  rewrite CleanupStuckTasks_healthy by done. fold cutoff. rewrite Hp.
  rewrite (filter_none (scored_within 0 cutoff)); [done|].
  apply Forall_forall. intros e He Hwithin.
  apply list_elem_of_filter in He as [Hnotin He]. apply Hnotin.
  apply list_elem_of_fmap_2. by apply list_elem_of_filter.
Qed.

(** X7 on an entry claimed at second 1000, reaped at second 1300. *)
Lemma CleanupStuckTasks_twice_witness :
  CleanupStuckTasks ex_cfg ex_t300
    (CleanupStuckTasks ex_cfg ex_t300 (DequeueTask ex_t0 ex_one 1).1).1
  = (mkRedis None [] [] [] [] [(ex_itemA, 1360)], None).
Proof.
  apply (CleanupStuckTasks_twice ex_cfg ex_t300 (DequeueTask ex_t0 ex_one 1).1).
  reflexivity.
Defined.

(** X8: while the store answers, [CleanupStuckTasks] leaves the lanes alone.
    An entry of the processing set scored between 0 and the current unix
    time minus the task timeout leaves the processing set and is in the
    delayed set, due one retry delay after the current time; any other entry
    stays in the processing set with its score, and its place in the delayed
    set (if it has one) is not touched. *)
Theorem CleanupStuckTasks_moves_expired (cfg : config.QueueConfig)
    (now : time.Time) (r : Redis) (item : QueueItem) (score : Z) :
  healthy r →
  NoDup (processing r).*1 →
  (item, score) ∈ processing r →
  (∀ key, lane (CleanupStuckTasks cfg now r).1 key = lane r key)
  ∧ ((0 ≤ score ∧ score ≤ time.AddUnix now (- config.TaskTimeout cfg)) →
     (item ∉ (processing (CleanupStuckTasks cfg now r).1).*1)
     ∧ zscore (delayed (CleanupStuckTasks cfg now r).1) item
       = Some (time.AddUnix now (config.RetryDelay cfg)))
  ∧ (¬ (0 ≤ score ∧ score ≤ time.AddUnix now (- config.TaskTimeout cfg)) →
     (item, score) ∈ processing (CleanupStuckTasks cfg now r).1
     ∧ zscore (delayed (CleanupStuckTasks cfg now r).1) item
       = zscore (delayed r) item).
Proof.
  intros H Hnodup Hin. rewrite (CleanupStuckTasks_healthy cfg now r H). cbn [fst].
  set (cutoff := time.AddUnix now (- config.TaskTimeout cfg)).
  set (due := (filter (scored_within 0 cutoff) (processing r)).*1).
  destruct (CleanupStuckTasks_range_healthy cfg now due r H)
    as (_ & Hlanes & Hp & Hd).
  assert (item ∈ due ↔ 0 ≤ score ≤ cutoff) as Hdue.
  { unfold due. rewrite list_elem_of_fmap. split.
    - intros (e & Heq & He). apply list_elem_of_filter in He as [Hwithin He].
      pose proof (fst_inj_of_NoDup (processing r) (item, score) e
                    Hnodup Hin He Heq) as <-.
      unfold scored_within in Hwithin. simpl in Hwithin. lia.
    - intros Hwithin. exists (item, score). split; [done|].
      apply list_elem_of_filter. split; [|done]. unfold scored_within. simpl. lia. }
  split; [done|]. rewrite Hp, Hd. split.
  - intros Hwithin. apply Hdue in Hwithin. split.
    + rewrite list_elem_of_fmap. intros (e & -> & He).
      by apply list_elem_of_filter in He as [Hnotin _].
    + by apply zscore_foldl_zadd_in.
  - intros Hnot. rewrite <- Hdue in Hnot. split.
    + by apply list_elem_of_filter.
    + by apply zscore_foldl_zadd_notin.
Qed.

(** X8 on A, claimed at second 1000, at second 1300 and just before. *)
Lemma CleanupStuckTasks_moves_expired_witness :
  zscore (delayed (CleanupStuckTasks ex_cfg ex_t300
                     (mkRedis None [] [] [] [(ex_itemA, 1000)] [])).1) ex_itemA
  = Some 1360
  ∧ (ex_itemA, 1000)
    ∈ processing (CleanupStuckTasks ex_cfg ex_t299
                    (mkRedis None [] [] [] [(ex_itemA, 1000)] [])).1.
Proof.
  split.
  - destruct (CleanupStuckTasks_moves_expired ex_cfg ex_t300
                (mkRedis None [] [] [] [(ex_itemA, 1000)] []) ex_itemA 1000)
      as (_ & Hexpired & _).
    + reflexivity.
    + simpl. repeat constructor. apply not_elem_of_nil.
    + simpl. left.
    + apply Hexpired. vm_compute. split; discriminate.
  - destruct (CleanupStuckTasks_moves_expired ex_cfg ex_t299
                (mkRedis None [] [] [] [(ex_itemA, 1000)] []) ex_itemA 1000)
      as (_ & _ & Hkept).
    + reflexivity.
    + simpl. repeat constructor. apply not_elem_of_nil.
    + simpl. left.
    + apply Hkept. vm_compute. intros [_ Hle]. by apply Hle.
Defined.

(** X9: while the store answers, [RequeueTask] with a delay of 0 or less
    puts the entry at the head of the lane of its priority at once.  With a
    positive delay it leaves the lanes alone and scores the entry in the
    delayed set with the unix time of now plus the delay; a later
    [ProcessDelayedTasks] moves the entry to its lane when that score lies
    between 0 and its own unix time, and leaves it delayed otherwise. *)
Theorem RequeueTask_then_promote (now later : time.Time) (r : Redis)
    (item : QueueItem) (delay : Z) :
  healthy r →
  (delay ≤ 0 →
   RequeueTask now r item delay
   = (set_lane r (getQueueKey (Priority item))
        (item :: lane r (getQueueKey (Priority item))), None))
  ∧ (0 < delay →
     (RequeueTask now r item delay).2 = None
     ∧ (∀ key, lane (RequeueTask now r item delay).1 key = lane r key)
     ∧ zscore (delayed (RequeueTask now r item delay).1) item
       = Some (time.AddUnix now delay)
     ∧ ((0 ≤ time.AddUnix now delay ∧ time.AddUnix now delay ≤ time.Unix later) →
        item ∈ lane (ProcessDelayedTasks later (RequeueTask now r item delay).1).1
                 (getQueueKey (Priority item))
        ∧ (item ∉ (delayed (ProcessDelayedTasks later
                              (RequeueTask now r item delay).1).1).*1))
     ∧ (¬ (0 ≤ time.AddUnix now delay ∧ time.AddUnix now delay ≤ time.Unix later) →
        (item, time.AddUnix now delay)
        ∈ delayed (ProcessDelayedTasks later (RequeueTask now r item delay).1).1)).
Proof.
  intros H. split.
  - intros Hdelay. unfold RequeueTask.
    destruct (Z.ltb_spec 0 delay); [lia|]. by rewrite LPush_healthy.
  - intros Hdelay. unfold RequeueTask.
    destruct (Z.ltb_spec 0 delay); [|lia].
    rewrite enqueueDelayed_healthy by done. cbn [fst snd].
    set (s := time.AddUnix now delay).
    set (r1 := set_zset r DelayedQueue (zadd (delayed r) item s)).
    assert (healthy r1) as H1 by by apply healthy_set_zset.
    assert ((item, s) ∈ delayed r1) as Hin.
    { unfold r1. simpl. apply elem_of_zinsert. by left. }
    assert (∀ e, e ∈ delayed r1 → e.1 = item → e = (item, s)) as Honly.
    { intros e He Heq. unfold r1 in He. simpl in He.
      apply elem_of_zinsert in He as [->|He]; [done|].
      by apply elem_of_zremove_pair in He as [Hne _]. }
    split; [done|]. split; [intros key; apply lane_set_zset|].
    split; [apply zscore_zadd_eq|].
    unfold ProcessDelayedTasks. rewrite ZRangeByScore_healthy by done.
    cbn [zset fst snd].
    set (due := (filter (scored_within 0 (time.Unix later)) (delayed r1)).*1).
    destruct (ProcessDelayedTasks_range_healthy due r1 H1) as (_ & _ & Hd & Hlanes).
    rewrite Hd, Hlanes. split.
    + intros Hwithin.
      assert (item ∈ due) as Hdue.
      { unfold due. apply (list_elem_of_fmap_2' fst _ (item, s)); [|done].
        by apply list_elem_of_filter. }
      split.
      * apply elem_of_app. left. apply elem_of_reverse.
        by apply list_elem_of_filter.
      * rewrite list_elem_of_fmap. intros (e & -> & He).
        by apply list_elem_of_filter in He as [Hnotin _].
    + intros Hnot. apply list_elem_of_filter. split; [|done]. simpl.
      unfold due. rewrite list_elem_of_fmap. intros (e & Heq & He).
      apply list_elem_of_filter in He as [Hwithin He].
      rewrite (Honly e He) in Hwithin by done. by apply Hnot.
Qed.

(** X9 for entry A at second 1000: pushed at once without delay; with a
    delay of 5 seconds promoted at second 1009; with a delay of 60 seconds
    still delayed then. *)
Lemma RequeueTask_then_promote_witness :
  high (RequeueTask ex_t0 ex_empty ex_item7' 0).1 = [ex_item7']
  ∧ ex_itemA
    ∈ lane (ProcessDelayedTasks ex_t2
              (RequeueTask ex_t0 ex_empty ex_itemA (5 * time.Second)).1).1
        MediumPriorityQueue
  ∧ (ex_itemA, 1060)
    ∈ delayed (ProcessDelayedTasks ex_t2
                 (RequeueTask ex_t0 ex_empty ex_itemA (60 * time.Second)).1).1.
Proof.
  split; [|split].
  - destruct (RequeueTask_then_promote ex_t0 ex_t0 ex_empty ex_item7' 0 eq_refl)
      as [Hnow _].
    by rewrite Hnow.
  - destruct (RequeueTask_then_promote ex_t0 ex_t2 ex_empty ex_itemA
                (5 * time.Second) eq_refl) as [_ Hlater].
    destruct Hlater as (_ & _ & _ & Hdue & _); [reflexivity|].
    apply Hdue. vm_compute. split; discriminate.
  - destruct (RequeueTask_then_promote ex_t0 ex_t2 ex_empty ex_itemA
                (60 * time.Second) eq_refl) as [_ Hlater].
    destruct Hlater as (_ & _ & _ & _ & Hnotdue); [reflexivity|].
    apply Hnotdue. vm_compute. intros [_ Hle]. by apply Hle.
Defined.

(** ** [GetQueueStatus] *)

Lemma int64_wrap_small z : - 2 ^ 63 ≤ z < 2 ^ 63 → int64_wrap z = z.
Proof. unfold int64_wrap. intros Hz. rewrite Z.mod_small; lia. Qed.

Lemma LLen_down r key : calls_left r = Some 0%nat → LLen r key = None.
Proof. unfold LLen, roundtrip. by intros ->. Qed.

Lemma ZCard_down r zkey : calls_left r = Some 0%nat → ZCard r zkey = None.
Proof. unfold ZCard, roundtrip. by intros ->. Qed.

Lemma LLen_healthy r key :
  healthy r → LLen r key = Some (r, Z.of_nat (length (lane r key))).
Proof. intros H. unfold LLen. by rewrite (roundtrip_healthy _ H). Qed.

Lemma ZCard_healthy r zkey :
  healthy r → ZCard r zkey = Some (r, Z.of_nat (length (zset r zkey))).
Proof. intros H. unfold ZCard. by rewrite (roundtrip_healthy _ H). Qed.

(** X10: [GetQueueStatus] drops the error of every command.  When the
    connection is lost it reports all counts as 0, which is what it reports
    for empty queues; when the store answers (and holds fewer than 2^63
    entries) it reports the five lengths and their sum, and changes
    nothing. *)
Theorem GetQueueStatus_counts (r : Redis) :
  (calls_left r = Some 0%nat →
   GetQueueStatus r = (r, models.mkQueueStatus 0 0 0 0 0 0))
  ∧ (healthy r →
     Z.of_nat (length (high r) + length (medium r) + length (low r)
               + length (processing r) + length (delayed r)) < 2 ^ 63 →
     GetQueueStatus r
     = (r, models.mkQueueStatus
             (Z.of_nat (length (high r))) (Z.of_nat (length (medium r)))
             (Z.of_nat (length (low r))) (Z.of_nat (length (processing r)))
             (Z.of_nat (length (delayed r)))
             (Z.of_nat (length (high r) + length (medium r) + length (low r)
                        + length (processing r) + length (delayed r))))).
Proof.
  split.
  - intros Hdown. unfold GetQueueStatus.
    do 3 (rewrite LLen_down by done; cbn [count_or_zero]).
    by do 2 (rewrite ZCard_down by done; cbn [count_or_zero]).
  - intros H Hsmall. unfold GetQueueStatus.
    do 3 (rewrite LLen_healthy by done; cbn [count_or_zero]).
    do 2 (rewrite ZCard_healthy by done; cbn [count_or_zero]).
    cbn [lane zset].
    set (h := Z.of_nat (length (high r))) in *.
    set (md := Z.of_nat (length (medium r))) in *.
    set (lo := Z.of_nat (length (low r))) in *.
    set (pr := Z.of_nat (length (processing r))) in *.
    set (dl := Z.of_nat (length (delayed r))) in *.
    rewrite (int64_wrap_small (h + md)) by lia.
    rewrite (int64_wrap_small (h + md + lo)) by lia.
    rewrite (int64_wrap_small (h + md + lo + pr)) by lia.
    rewrite (int64_wrap_small (h + md + lo + pr + dl)) by lia.
    do 2 f_equal. lia.
Qed.

(** X10 on a dead store that still holds an entry, and on a live one. *)
Lemma GetQueueStatus_counts_witness :
  (GetQueueStatus (mkRedis (Some 0%nat) [ex_itemA] [] [] [] [])).2
  = models.mkQueueStatus 0 0 0 0 0 0
  ∧ (GetQueueStatus ex_two_claims).2 = models.mkQueueStatus 0 0 0 2 0 2.
Proof.
  split.
  - destruct (GetQueueStatus_counts (mkRedis (Some 0%nat) [ex_itemA] [] [] [] []))
      as [Hdown _].
    by rewrite Hdown.
  - destruct (GetQueueStatus_counts ex_two_claims) as [_ Hup].
    rewrite Hup; [reflexivity | reflexivity | reflexivity].
Defined.

(** ** [CreateTask], [CancelTask] and [RetryTask] *)

(** X11: [CreateTask] for a model that has no row returns [model not found]
    and changes nothing.  For a model that has one, while the store answers,
    it returns the new row: pending, no retry counted of three, priority
    medium when the request carries 0; the row is stored under the key the
    counter gave, the counter moves on, no other row changes, and the entry
    of the task is at the head of the lane of its priority. *)
Theorem CreateTask_outcomes (now : time.Time) (s : Stores)
    (req : models.TaskCreateRequest) :
  (models_table (db s) !! models.ReqModelID req = None →
   CreateTask now s req = (s, inl (Errorf "model not found")))
  ∧ (is_Some (models_table (db s) !! models.ReqModelID req) →
     healthy (redis s) →
     ∃ task,
       task = new_task now (tasks_auto_increment (db s)) req
       ∧ (CreateTask now s req).2 = inr task
       ∧ models.Task.Status task = models.TaskStatusPending
       ∧ models.Task.RetryCount task = 0
       ∧ models.Task.MaxRetries task = 3
       ∧ (models.ReqPriority req = 0 →
          models.Task.Priority task = models.TaskPriorityMedium)
       ∧ tasks_table (db (CreateTask now s req).1) !! tasks_auto_increment (db s)
         = Some task
       ∧ tasks_auto_increment (db (CreateTask now s req).1)
         = N.succ (tasks_auto_increment (db s))
       ∧ (∀ j, j ≠ tasks_auto_increment (db s) →
               tasks_table (db (CreateTask now s req).1) !! j
               = tasks_table (db s) !! j)
       ∧ models_table (db (CreateTask now s req).1) = models_table (db s)
       ∧ lane (redis (CreateTask now s req).1)
              (getQueueKey (models.Task.Priority task))
         = item_of_task task
           :: lane (redis s) (getQueueKey (models.Task.Priority task))).
Proof.
  split.
  - intros Hnone. unfold CreateTask. by rewrite Hnone.
  - intros [model Hmodel] H. eexists. split; [reflexivity|].
    unfold CreateTask. rewrite Hmodel.
    rewrite EnqueueTask_healthy by done. cbn [fst snd db redis].
    split; [done|]. split; [done|]. split; [done|]. split; [done|].
    split.
    { intros Hzero. simpl. by rewrite decide_True. }
    rewrite tasks_table_addTaskLog, models_table_addTaskLog.
    split; [apply lookup_insert_eq|].
    split; [unfold addTaskLog; simpl; by rewrite lookup_insert_eq|].
    split; [intros j Hj; by apply lookup_insert_ne|].
    split; [done|]. apply lane_set_lane_eq.
Qed.

(** X11 on the worked database: a request for model 9 is refused, the
    translation request becomes task 1 in the medium lane. *)
Lemma CreateTask_outcomes_witness :
  CreateTask ex_t0 (mkStores ex_db ex_empty) (models.mkTaskCreateRequest 9 "x" "y" 0)
  = (mkStores ex_db ex_empty, inl (Errorf "model not found"))
  ∧ (CreateTask ex_t0 (mkStores ex_db ex_empty) ex_translate).2
    = inr (new_task ex_t0 1 ex_translate)
  ∧ medium (redis (CreateTask ex_t0 (mkStores ex_db ex_empty) ex_translate).1)
    = [mkQueueItem 1 1 2 ex_t0].
Proof.
  split.
  - destruct (CreateTask_outcomes ex_t0 (mkStores ex_db ex_empty)
                (models.mkTaskCreateRequest 9 "x" "y" 0)) as [Hnone _].
    apply Hnone. reflexivity.
  - destruct (CreateTask_outcomes ex_t0 (mkStores ex_db ex_empty) ex_translate)
      as [_ Hsome].
    destruct Hsome as (task & -> & Hres & _ & _ & _ & _ & _ & _ & _ & _ & Hlane).
    + by exists ex_model.
    + reflexivity.
    + split; [exact Hres | exact Hlane].
Defined.

(** X12: [CancelTask] returns an error exactly when the task has no row or
    its row is completed in the sense of [Task.IsCompleted] (completed,
    failed or cancelled); when it returns an error, nothing has changed. *)
Theorem CancelTask_gate (now : time.Time) (s : Stores) (id : N) :
  ((CancelTask now s id).2 ≠ None
   ↔ match tasks_table (db s) !! id with
     | None => True
     | Some task => models.Task.IsCompleted task = true
     end)
  ∧ ((CancelTask now s id).2 ≠ None → (CancelTask now s id).1 = s).
Proof.
  unfold CancelTask. destruct (tasks_table (db s) !! id) as [task|]; [|done].
  unfold models.Task.IsCompleted.
  destruct (models.Task.Status task); simpl.
  - split; [split; [intros Hc; by destruct Hc | done] | intros Hc; by destruct Hc].
  - split; [split; [intros Hc; by destruct Hc | done] | intros Hc; by destruct Hc].
  - split; [by split | done].
  - split; [by split | done].
  - split; [by split | done].
Qed.

(** X13: cancelling a running task does not ack it.  The ack in
    [CancelTask] is guarded by a test of [task.Status] that runs after the
    update has written [cancelled] into [task], so it is never made: after
    [CancelTask] of a running task the row is cancelled with [completed_at]
    set to the time of the call, and the queue store is the one before, the
    entry of the task still in the processing set with its score. *)
Theorem CancelTask_running_keeps_entry (now : time.Time) (s : Stores) (id : N)
    (task : models.Task.t) :
  tasks_table (db s) !! id = Some task →
  models.Task.Status task = models.TaskStatusRunning →
  (CancelTask now s id).2 = None
  ∧ tasks_table (db (CancelTask now s id).1) !! id
    = Some (assign (assign task (status models.TaskStatusCancelled))
              (completed_at (Some now)))
  ∧ redis (CancelTask now s id).1 = redis s.
Proof.
  intros Hrow Hst. unfold CancelTask. rewrite Hrow, Status_after_cancel, Hst.
  assert (bool_decide (models.TaskStatusRunning ≠ models.TaskStatusPending)
          && bool_decide (models.TaskStatusRunning ≠ models.TaskStatusRunning)
          = false) as -> by reflexivity.
  assert (bool_decide (models.TaskStatusCancelled = models.TaskStatusRunning)
          = false) as -> by reflexivity.
  cbn [fst snd db redis].
  split; [done|]. split; [|done].
  by rewrite tasks_table_addTaskLog, lookup_Updates_eq, Hrow.
Qed.

(** X13 on the running task 7: the row is cancelled and the claim of task 7
    is still in the processing set. *)
Lemma CancelTask_running_keeps_entry_witness :
  models.Task.Status <$> tasks_table (db (CancelTask ex_t1 ex_running_stores 7).1) !! 7%N
  = Some models.TaskStatusCancelled
  ∧ processing (redis (CancelTask ex_t1 ex_running_stores 7).1) = [(ex_item7, 1000)].
Proof.
  destruct (CancelTask_running_keeps_entry ex_t1 ex_running_stores 7 ex_running_task)
    as (_ & Hrow & Hredis).
  - reflexivity.
  - reflexivity.
  - split; [by rewrite Hrow | by rewrite Hredis].
Defined.

(** X14: for a task that has a row, while the store answers, [RetryTask]
    accepts the task exactly when [Task.CanRetry] says so. *)
Theorem RetryTask_iff_CanRetry (s : Stores) (id : N) (task : models.Task.t) :
  tasks_table (db s) !! id = Some task →
  healthy (redis s) →
  ((RetryTask s id).2 = None ↔ models.Task.CanRetry task = true).
Proof.
  intros Hrow H. unfold RetryTask, models.Task.CanRetry. rewrite Hrow.
  destruct (decide (models.Task.Status task = models.TaskStatusFailed)) as [Hst|Hst].
  - rewrite bool_decide_eq_false_2 by (intros Hc; by apply Hc).
    rewrite bool_decide_eq_true_2 by done.
    destruct (Z.leb_spec (models.Task.MaxRetries task) (models.Task.RetryCount task))
      as [Hle|Hlt]; simpl.
    + split; [done|]. rewrite Z.ltb_lt. lia.
    + rewrite EnqueueTask_healthy by done. simpl. split; [|done].
      intros _. by apply Z.ltb_lt.
  - rewrite bool_decide_eq_true_2 by done.
    rewrite (bool_decide_eq_false_2 _ Hst). by simpl.
Qed.

(** X14 on the failed task 5 (accepted) and the pending task 3 (refused). *)
Lemma RetryTask_iff_CanRetry_witness :
  (RetryTask ex_failed_stores 5).2 = None
  ∧ (RetryTask ex_pending_stores 3).2 ≠ None.
Proof.
  split.
  - apply (RetryTask_iff_CanRetry ex_failed_stores 5 ex_failed_task);
      reflexivity.
  - intros Hnone.
    apply (RetryTask_iff_CanRetry ex_pending_stores 3 ex_pending_task) in Hnone;
      [discriminate | reflexivity | reflexivity].
Defined.

(** X15: [RetryTask] writes the row before it enqueues and does not undo the
    write.  When the task can be retried and the connection is lost,
    [RetryTask] returns the error with the row already pending and the retry
    counted, and the queue store as it was: no entry was added for the
    task. *)
Theorem RetryTask_enqueue_failure (s : Stores) (id : N) (task : models.Task.t) :
  tasks_table (db s) !! id = Some task →
  models.Task.CanRetry task = true →
  int_range (models.Task.RetryCount task) →
  int_range (models.Task.MaxRetries task) →
  calls_left (redis s) = Some 0%nat →
  (RetryTask s id).2
  = Some (Wrapf "failed to enqueue retry task"
            (Wrapf "failed to enqueue task" RedisError))
  ∧ tasks_table (db (RetryTask s id).1) !! id = Some (retried task)
  ∧ redis (RetryTask s id).1 = redis s.
Proof.
  intros Hrow Hcan Hrc Hmr Hdown. unfold RetryTask. rewrite Hrow.
  unfold models.Task.CanRetry in Hcan.
  apply andb_true_iff in Hcan as [Hst Hlt].
  apply bool_decide_eq_true in Hst. apply Z.ltb_lt in Hlt.
  rewrite bool_decide_eq_false_2 by (intros Hc; by apply Hc).
  destruct (Z.leb_spec (models.Task.MaxRetries task) (models.Task.RetryCount task));
    [lia|].
  unfold EnqueueTask. rewrite LPush_down by done. cbn [fst snd db redis].
  split; [done|]. split; [|done].
  rewrite lookup_Updates_eq, Hrow. simpl. f_equal.
  rewrite int_wrap_small by (unfold int_range in *; lia).
  by destruct task.
Qed.

(** X15 on the failed task 5 with the store down. *)
Lemma RetryTask_enqueue_failure_witness :
  tasks_table (db (RetryTask (mkStores (db ex_failed_stores) ex_down) 5).1) !! 5%N
  = Some (retried ex_failed_task)
  ∧ redis (RetryTask (mkStores (db ex_failed_stores) ex_down) 5).1 = ex_down.
Proof.
  destruct (RetryTask_enqueue_failure (mkStores (db ex_failed_stores) ex_down) 5
              ex_failed_task) as (_ & Hrow & Hredis).
  - reflexivity.
  - reflexivity.
  - unfold int_range. simpl. lia.
  - unfold int_range. simpl. lia.
  - reflexivity.
  - split; [exact Hrow | exact Hredis].
Defined.

(** ** What the task service does to a row, whatever the operation *)

Lemma tasks_table_Updates d id updates :
  tasks_table (Updates d id updates)
  = alter (λ t, foldl assign t updates) id (tasks_table d).
Proof. reflexivity. Qed.

Lemma alter_same (f : models.Task.t → models.Task.t) (id : N)
    (m : gmap N models.Task.t) :
  (∀ x, m !! id = Some x → f x = x) → alter f id m = m.
Proof.
  intros Hf. apply map_eq. intros i. destruct (decide (i = id)) as [->|Hne].
  - rewrite lookup_alter_eq. destruct (m !! id) as [x|] eqn:Hx; [|done].
    simpl. by rewrite (Hf x).
  - by rewrite lookup_alter_ne.
Qed.

(** Every operation alters the row with the key it was given and no other,
    by a function that keeps the columns of [row_step] and, unless it is
    [UpdateTask], the timestamps of [timestamps_ok]. *)
Lemma run_op_alter (op : TaskOp) (s : Stores) (id : N) :
  ∃ f : models.Task.t → models.Task.t,
    tasks_table (db (run_op op s id)) = alter f id (tasks_table (db s))
    ∧ ∀ row, tasks_table (db s) !! id = Some row →
        (int_range (models.Task.RetryCount row) →
         int_range (models.Task.MaxRetries row) → row_step row (f row))
        ∧ (¬ is_update op → timestamps_ok row → timestamps_ok (f row)).
Proof.
  assert (Hid : ∀ row, row_step row row).
  { intros row. unfold row_step. repeat split; lia. }
  assert (Hsame : ∀ m : gmap N models.Task.t, m = alter (λ t, t) id m).
  { intros m. symmetry. by apply alter_same. }
  destruct op as [now| |now|now out|now msg|req]; cbn [run_op].
  - (* CancelTask *)
    unfold CancelTask. destruct (tasks_table (db s) !! id) as [task|] eqn:Hrow.
    2:{ exists (λ t, t). split; [apply Hsame | intros ? [=]]. }
    destruct (bool_decide (models.Task.Status task ≠ models.TaskStatusPending)
              && bool_decide (models.Task.Status task ≠ models.TaskStatusRunning)).
    { exists (λ t, t). cbn [fst db]. split; [apply Hsame|]. intros row _. by split. }
    eexists. cbn [fst db]. rewrite tasks_table_addTaskLog, tasks_table_Updates.
    split; [reflexivity|]. intros row _. split.
    + intros _ _. destruct row. unfold row_step. simpl. repeat split; lia.
    + intros _ _. destruct row. unfold timestamps_ok. simpl. split; [done|by eauto].
  - (* RetryTask *)
    unfold RetryTask. destruct (tasks_table (db s) !! id) as [task|] eqn:Hrow.
    2:{ exists (λ t, t). split; [apply Hsame | intros ? [=]]. }
    destruct (bool_decide (models.Task.Status task ≠ models.TaskStatusFailed)).
    { exists (λ t, t). cbn [fst db]. split; [apply Hsame|]. intros row _. by split. }
    destruct (Z.leb_spec (models.Task.MaxRetries task) (models.Task.RetryCount task))
      as [Hle|Hlt].
    { exists (λ t, t). cbn [fst db]. split; [apply Hsame|]. intros row _. by split. }
    eexists. split.
    { destruct (EnqueueTask (redis s) task) as [r1 [err|]]; cbn [fst db];
        rewrite ?tasks_table_addTaskLog, tasks_table_Updates; reflexivity. }
    intros row [= <-]. split.
    + intros Hrc Hmr. rewrite int_wrap_small by (unfold int_range in *; lia).
      destruct task. unfold row_step. simpl in *. repeat split; lia.
    + intros _ _. destruct task. unfold timestamps_ok. by simpl.
  - (* StartTask *)
    eexists. cbn [fst db StartTask].
    rewrite tasks_table_addTaskLog, tasks_table_Updates.
    split; [reflexivity|]. intros row _. split.
    + intros _ _. destruct row. unfold row_step. simpl. repeat split; lia.
    + intros _ _. destruct row. unfold timestamps_ok. simpl. split; [by eauto|done].
  - (* CompleteTask *)
    eexists. cbn [fst db services.CompleteTask].
    rewrite tasks_table_addTaskLog, tasks_table_Updates.
    split; [reflexivity|]. intros row _. split.
    + intros _ _. destruct row. unfold row_step. simpl. repeat split; lia.
    + intros _ _. destruct row. unfold timestamps_ok. simpl. split; [done|by eauto].
  - (* FailTask *)
    eexists. cbn [fst db FailTask].
    rewrite tasks_table_addTaskLog, tasks_table_Updates.
    split; [reflexivity|]. intros row _. split.
    + intros _ _. destruct row. unfold row_step. simpl. repeat split; lia.
    + intros _ _. destruct row. unfold timestamps_ok. simpl. split; [done|by eauto].
  - (* UpdateTask *)
    unfold UpdateTask. destruct (tasks_table (db s) !! id) as [task|] eqn:Hrow.
    2:{ exists (λ t, t). split; [apply Hsame | intros ? [=]]. }
    exists (λ t,
      let t1 := match models.UpdPriority req with
                | Some p => set_priority p t | None => t end in
      match models.UpdStatus req with
      | Some st => assign t1 (status st) | None => t1 end).
    cbn [fst db]. split.
    + destruct req as [[p|] [st|]]; cbn [models.UpdPriority models.UpdStatus];
        rewrite ?tasks_table_Updates; cbn [tasks_table];
        rewrite ?tasks_table_addTaskLog; try apply Hsame.
      * rewrite alter_alter_eq. reflexivity.
      * reflexivity.
      * reflexivity.
    + intros row _. split; [|intros Hup; by destruct Hup].
      intros _ _. destruct req as [[p|] [st|]], row; unfold row_step; simpl;
        repeat split; lia.
Qed.

(** X16: whatever the operation of the task service ([CancelTask],
    [RetryTask], [StartTask], [CompleteTask], [FailTask], [UpdateTask]) and
    whatever its outcome, a row that was there is still there; its key,
    model, type, input, maximum of retries and creation time are as they
    were; its retry count went up by one at most and, if it was within the
    maximum, still is; and a row with another key than the one passed is
    untouched. *)
Theorem task_rows_kept (op : TaskOp) (s : Stores) (id id' : N)
    (row : models.Task.t) :
  tasks_table (db s) !! id' = Some row →
  int_range (models.Task.RetryCount row) →
  int_range (models.Task.MaxRetries row) →
  ∃ row', tasks_table (db (run_op op s id)) !! id' = Some row'
          ∧ row_step row row'
          ∧ (id' ≠ id → row' = row).
Proof.
  intros Hrow Hrc Hmr. destruct (run_op_alter op s id) as (f & -> & Hf).
  destruct (decide (id' = id)) as [->|Hne].
  - exists (f row). rewrite lookup_alter_eq, Hrow. split; [done|].
    split; [by apply (Hf row Hrow) | done].
  - exists row. rewrite lookup_alter_ne by done. split; [done|].
    split; [|done]. unfold row_step. repeat split; lia.
Qed.

(** X16 on a retry of the failed task 5: the count goes from 0 to 1. *)
Lemma task_rows_kept_witness :
  ∃ row', tasks_table (db (run_op OpRetry ex_failed_stores 5)) !! 5%N = Some row'
          ∧ row_step ex_failed_task row'.
Proof.
  destruct (task_rows_kept OpRetry ex_failed_stores 5 5 ex_failed_task)
    as (row' & Hrow & Hstep & _).
  - reflexivity.
  - unfold int_range. simpl. lia.
  - unfold int_range. simpl. lia.
  - exists row'. split; [exact Hrow | exact Hstep].
Defined.

(** X17: no operation of the task service creates or deletes a task row. *)
Theorem task_keys_kept (op : TaskOp) (s : Stores) (id id' : N) :
  is_Some (tasks_table (db (run_op op s id)) !! id')
  ↔ is_Some (tasks_table (db s) !! id').
Proof.
  destruct (run_op_alter op s id) as (f & -> & _).
  destruct (decide (id' = id)) as [->|Hne].
  - rewrite lookup_alter_eq. by rewrite fmap_is_Some.
  - by rewrite lookup_alter_ne.
Qed.

(** X18: the rows' timestamps follow the status.  If a row has [started_at]
    when it is running and [completed_at] when it is completed, failed or
    cancelled, it still does after [CancelTask], [RetryTask], [StartTask],
    [CompleteTask] or [FailTask], whatever the key passed. *)
Theorem timestamps_kept (op : TaskOp) (s : Stores) (id id' : N)
    (row row' : models.Task.t) :
  ¬ is_update op →
  tasks_table (db s) !! id' = Some row →
  timestamps_ok row →
  tasks_table (db (run_op op s id)) !! id' = Some row' →
  timestamps_ok row'.
Proof.
  intros Hop Hrow Hok. destruct (run_op_alter op s id) as (f & -> & Hf).
  destruct (decide (id' = id)) as [->|Hne].
  - rewrite lookup_alter_eq, Hrow. intros [= <-]. by apply (Hf row Hrow).
  - rewrite lookup_alter_ne, Hrow by done. by intros [= <-].
Qed.

(** X18 on the start of the pending task 3. *)
Lemma timestamps_kept_witness :
  timestamps_ok
    (assign (assign ex_pending_task (status models.TaskStatusRunning))
       (started_at (Some ex_t1))).
Proof.
  apply (timestamps_kept (OpStart ex_t1) ex_pending_stores 3 3 ex_pending_task).
  - intros Hup. exact Hup.
  - reflexivity.
  - split; [discriminate | discriminate].
  - reflexivity.
Defined.

(** X19: the operations of the task service only append to the log, and
    only lines of the task they were called for, two at most; they leave the
    models and the key counter alone. *)
Theorem task_logs_appended (op : TaskOp) (s : Stores) (id : N) :
  ∃ added,
    task_logs_table (db (run_op op s id)) = task_logs_table (db s) ++ added
    ∧ Forall (λ l, models.LogTaskID l = id) added
    ∧ (length added ≤ 2)%nat
    ∧ models_table (db (run_op op s id)) = models_table (db s)
    ∧ tasks_auto_increment (db (run_op op s id)) = tasks_auto_increment (db s).
Proof.
  assert (Hnone : ∃ added : list models.TaskLog,
             task_logs_table (db s) = task_logs_table (db s) ++ added
             ∧ Forall (λ l, models.LogTaskID l = id) added
             ∧ (length added ≤ 2)%nat
             ∧ models_table (db s) = models_table (db s)
             ∧ tasks_auto_increment (db s) = tasks_auto_increment (db s)).
  { exists []. rewrite app_nil_r. repeat split; [constructor | simpl; lia]. }
  assert (Hlog : ∀ d level message data,
             task_logs_table d = task_logs_table (db s) →
             models_table d = models_table (db s) →
             tasks_auto_increment d = tasks_auto_increment (db s) →
             ∃ added,
               task_logs_table (addTaskLog d id level message data)
               = task_logs_table (db s) ++ added
               ∧ Forall (λ l, models.LogTaskID l = id) added
               ∧ (length added ≤ 1)%nat
               ∧ models_table (addTaskLog d id level message data)
                 = models_table (db s)
               ∧ tasks_auto_increment (addTaskLog d id level message data)
                 = tasks_auto_increment (db s)).
  { intros d level message data Hl Hm Ha. unfold addTaskLog.
    destruct (tasks_table d !! id).
    - eexists [_]. cbn [task_logs_table models_table tasks_auto_increment].
      rewrite Hl. repeat split; [|simpl; lia|done|done].
      apply Forall_cons. split; [reflexivity | constructor].
    - exists []. rewrite app_nil_r. repeat split; [done|constructor|simpl; lia|done|done]. }
  assert (Hweak : ∀ d,
             (∃ added, task_logs_table d = task_logs_table (db s) ++ added
                ∧ Forall (λ l, models.LogTaskID l = id) added
                ∧ (length added ≤ 1)%nat
                ∧ models_table d = models_table (db s)
                ∧ tasks_auto_increment d = tasks_auto_increment (db s)) →
             ∃ added, task_logs_table d = task_logs_table (db s) ++ added
                ∧ Forall (λ l, models.LogTaskID l = id) added
                ∧ (length added ≤ 2)%nat
                ∧ models_table d = models_table (db s)
                ∧ tasks_auto_increment d = tasks_auto_increment (db s)).
  { intros d (added & ? & ? & ? & ? & ?). exists added. repeat split; try done. lia. }
  destruct op as [now| |now|now out|now msg|req]; cbn [run_op].
  - unfold CancelTask. destruct (tasks_table (db s) !! id); [|exact Hnone].
    destruct (_ && _); [exact Hnone|]. cbn [fst db]. by apply Hweak, Hlog.
  - unfold RetryTask. destruct (tasks_table (db s) !! id); [|exact Hnone].
    destruct (bool_decide _); [exact Hnone|].
    destruct (_ <=? _); [exact Hnone|].
    destruct (EnqueueTask (redis s) t) as [r1 [err|]]; cbn [fst db].
    + exact Hnone.
    + by apply Hweak, Hlog.
  - cbn [fst db StartTask]. by apply Hweak, Hlog.
  - cbn [fst db services.CompleteTask]. by apply Hweak, Hlog.
  - cbn [fst db FailTask]. by apply Hweak, Hlog.
  - unfold UpdateTask. destruct (tasks_table (db s) !! id) as [task|] eqn:Hrow;
      [|exact Hnone].
    cbn [fst db]. destruct req as [[p|] [st|]];
      cbn [models.UpdPriority models.UpdStatus].
    + unfold Updates. cbn [task_logs_table models_table tasks_auto_increment].
      unfold addTaskLog. rewrite Hrow. cbn [tasks_table]. rewrite Hrow.
      cbn [task_logs_table models_table tasks_auto_increment].
      eexists [_; _]. rewrite <- app_assoc. repeat split; [|simpl; lia].
      repeat (apply Forall_cons; split; [reflexivity|]). constructor.
    + cbn [task_logs_table models_table tasks_auto_increment].
      by apply Hweak, Hlog.
    + unfold Updates. cbn [task_logs_table models_table tasks_auto_increment].
      by apply Hweak, Hlog.
    + exact Hnone.
Qed.

(** ** [UpdateTask], and the operations on a key without a row *)

(** X20: [UpdateTask] of a task that has a row writes the status and the
    priority that the request carries, with no check of the current status,
    and nothing else of the row; it returns the row it wrote. *)
Theorem UpdateTask_writes (d : DB) (id : N) (req : models.TaskUpdateRequest)
    (row : models.Task.t) :
  tasks_table d !! id = Some row →
  ∃ row', (UpdateTask d id req).2 = inr row'
    ∧ tasks_table (UpdateTask d id req).1 !! id = Some row'
    ∧ models.Task.Status row' = default (models.Task.Status row) (models.UpdStatus req)
    ∧ models.Task.Priority row'
      = default (models.Task.Priority row) (models.UpdPriority req)
    ∧ models.Task.Output row' = models.Task.Output row
    ∧ models.Task.ErrorMessage row' = models.Task.ErrorMessage row
    ∧ models.Task.StartedAt row' = models.Task.StartedAt row
    ∧ models.Task.CompletedAt row' = models.Task.CompletedAt row.
Proof.
  intros Hrow. unfold UpdateTask. rewrite Hrow. cbn [fst snd]. unfold GetTask.
  destruct req as [[p|] [st|]]; cbn [models.UpdPriority models.UpdStatus].
  - rewrite lookup_Updates_eq. cbn [tasks_table].
    rewrite lookup_alter_eq, !tasks_table_addTaskLog, Hrow. simpl.
    eexists. split; [reflexivity|]. split; [reflexivity|]. by destruct row.
  - cbn [tasks_table]. rewrite lookup_alter_eq, !tasks_table_addTaskLog, Hrow. simpl.
    eexists. split; [reflexivity|]. split; [reflexivity|]. by destruct row.
  - rewrite lookup_Updates_eq, !tasks_table_addTaskLog, Hrow. simpl.
    eexists. split; [reflexivity|]. split; [reflexivity|]. by destruct row.
  - rewrite Hrow. eexists. split; [reflexivity|]. split; [reflexivity|]. done.
Qed.

(** X20 on the failed task 5: a request sets it to completed. *)
Lemma UpdateTask_writes_witness :
  ∃ row',
    tasks_table
      (UpdateTask (db ex_failed_stores) 5
         (models.mkTaskUpdateRequest None (Some models.TaskStatusCompleted))).1 !! 5%N
    = Some row'
    ∧ models.Task.Status row' = models.TaskStatusCompleted
    ∧ models.Task.CompletedAt row' = Some ex_t1.
Proof.
  destruct (UpdateTask_writes (db ex_failed_stores) 5
              (models.mkTaskUpdateRequest None (Some models.TaskStatusCompleted))
              ex_failed_task) as (row' & _ & Hrow & Hst & _ & _ & _ & _ & Hca).
  - reflexivity.
  - exists row'. split; [exact Hrow|]. split; [exact Hst | exact Hca].
Defined.

Lemma Updates_missing d id updates :
  tasks_table d !! id = None → Updates d id updates = d.
Proof.
  intros Hrow. unfold Updates. rewrite alter_same; [by destruct d|].
  intros x. by rewrite Hrow.
Qed.

Lemma addTaskLog_missing d id level message data :
  tasks_table d !! id = None → addTaskLog d id level message data = d.
Proof. intros Hrow. unfold addTaskLog. by rewrite Hrow. Qed.

(** X21: [StartTask], [CompleteTask] and [FailTask] called with a key that
    has no row report success and change nothing, not even the log. *)
Theorem missing_row_is_silent (now : time.Time) (d : DB) (id : N)
    (out msg : string) :
  tasks_table d !! id = None →
  StartTask now d id = (d, None)
  ∧ services.CompleteTask now d id out = (d, None)
  ∧ FailTask now d id msg = (d, None).
Proof.
  intros Hrow. unfold StartTask, services.CompleteTask, FailTask.
  rewrite !Updates_missing by done. by rewrite !addTaskLog_missing.
Qed.

(** X21 on a database with no task. *)
Lemma missing_row_is_silent_witness :
  StartTask ex_t0 ex_db 9 = (ex_db, None)
  ∧ services.CompleteTask ex_t0 ex_db 9 "out" = (ex_db, None)
  ∧ FailTask ex_t0 ex_db 9 "err" = (ex_db, None).
Proof. apply (missing_row_is_silent ex_t0 ex_db 9 "out" "err"). reflexivity. Defined.

(** ** The worker *)

Lemma models_table_StartTask now d id :
  models_table (StartTask now d id).1 = models_table d.
Proof. unfold StartTask. cbn [fst]. by rewrite models_table_addTaskLog. Qed.

(** What [DequeueTask] leaves when it hands out an entry. *)
Lemma DequeueTask_pick now r m item :
  healthy r →
  pick m r [HighPriorityQueue; MediumPriorityQueue; LowPriorityQueue] = Some item →
  ∃ r', DequeueTask now r m = (r', inr (Some item))
        ∧ healthy r' ∧ delayed r' = delayed r
        ∧ processing r' = zinsert (item, time.Unix now) (zremove item (processing r)).
Proof.
  intros H Hpick. destruct (DequeueTask now r m) as [r' res] eqn:Hd.
  assert (res = inr (Some item)) as ->.
  { change res with (r', res).2. rewrite <- Hd, <- Hpick.
    apply DequeueTask_range_result; [done|].
    repeat (apply NoDup_cons; split;
            [rewrite list_elem_of_In; simpl; intuition discriminate|]).
    apply NoDup_nil_2. }
  exists r'. split; [done|].
  by destruct (DequeueTask_range_conserves _ _ _ _ _ _ H Hd) as (? & ? & _ & ? & _).
Qed.

(** X22: one round of a worker, from the lane to the ack.  While the store
    answers, if the entry the worker gets is of a task that has a row, whose
    model has a row, and the adapter returns an output, then
    [processNextTask] returns no error and leaves the task completed with
    the output and the two clock readings, the model with one more request
    and one more success, and no entry of the task in the processing set;
    the delayed set is as before. *)
Theorem processNextTask_completes (w : worker.Worker) (started finished : time.Time)
    (s : Stores) (item : QueueItem) (task : models.Task.t) (model : models.Model.t)
    (out : string) :
  healthy (redis s) →
  pick (worker.modelID w) (redis s)
    [HighPriorityQueue; MediumPriorityQueue; LowPriorityQueue] = Some item →
  tasks_table (db s) !! TaskID item = Some task →
  models.Task.ID task = TaskID item →
  models_table (db s) !! models.Task.ModelID task = Some model →
  models.Model.ID model = models.Task.ModelID task →
  worker.executeTaskByType task model = inr out →
  Forall (λ it, TaskID it ≠ TaskID item) (processing (redis s)).*1 →
  (worker.processNextTask w started finished s).2 = None
  ∧ tasks_table (db (worker.processNextTask w started finished s).1) !! TaskID item
    = Some (completed_row started finished out task)
  ∧ models_table (db (worker.processNextTask w started finished s).1)
      !! models.Task.ModelID task
    = Some (set_requests (models.Model.TotalRequests model + 1)
              (models.Model.SuccessRequests model + 1) model)
  ∧ Forall (λ it, TaskID it ≠ TaskID item)
      (processing (redis (worker.processNextTask w started finished s).1)).*1
  ∧ delayed (redis (worker.processNextTask w started finished s).1)
    = delayed (redis s).
Proof.
  intros H Hpick Hrow Hid Hmodel Hmid Hadapter Hfresh.
  destruct (DequeueTask_pick started (redis s) (worker.modelID w) item H Hpick)
    as (r1 & Hd & H1 & Hdel & Hproc).
  unfold worker.processNextTask. rewrite Hd. cbn [db redis].
  unfold GetTask. rewrite Hrow.
  unfold worker.executeTask, worker.executeTask_start.
  cbn [db redis]. rewrite Hid.
  destruct (StartTask started (db s) (TaskID item)) as [d1 e1] eqn:Hstart.
  assert (e1 = None) as -> by (by inversion Hstart).
  assert (d1 = (StartTask started (db s) (TaskID item)).1) as Hd1
    by (by rewrite Hstart).
  unfold GetModel. rewrite Hd1, models_table_StartTask, Hmodel, Hadapter.
  unfold worker.executeTask_finish. cbn [fst snd db redis]. rewrite Hid, Hmid.
  split; [done|]. split; [|split; [|split]].
  - unfold IncrementRequestCount, alter_model. cbn [fst tasks_table].
    rewrite lookup_CompleteTask, lookup_StartTask, Hrow. simpl. by destruct task.
  - unfold IncrementRequestCount, alter_model. cbn [fst models_table].
    rewrite lookup_alter_eq. unfold services.CompleteTask. cbn [fst].
    rewrite models_table_addTaskLog. unfold Updates. cbn [models_table].
    by rewrite models_table_StartTask, Hmodel.
  - unfold queue.CompleteTask. rewrite ZRange_healthy by done.
    destruct (CompleteTask_range_cases r1 (TaskID item) (zset r1 ProcessingQueue).*1 H1)
      as [[Hall _]|(it & Hin & Htid & ->)].
    + exfalso. apply (proj1 (Forall_forall _ _) Hall item); [|done].
      cbn [zset]. rewrite Hproc. apply list_elem_of_fmap.
      exists (item, time.Unix started). split; [done|].
      apply elem_of_zinsert. by left.
    + assert (it = item) as ->.
      { cbn [zset] in Hin. rewrite Hproc in Hin.
        apply list_elem_of_fmap in Hin as (e & -> & He).
        apply elem_of_zinsert in He as [->|He]; [done|].
        apply elem_of_zremove_pair in He as [_ He].
        exfalso. apply (proj1 (Forall_forall _ _) Hfresh e.1); [|done].
        apply list_elem_of_fmap. by exists e. }
      cbn [fst]. replace (processing (set_zset r1 ProcessingQueue
                                       (zremove item (processing r1))))
        with (zremove item (processing r1)) by (by destruct r1).
      apply Forall_forall. intros x Hx.
      apply elem_of_zremove in Hx as [Hne Hx]. rewrite Hproc in Hx.
      apply list_elem_of_fmap in Hx as (e & -> & He).
      apply elem_of_zinsert in He as [->|He]; [done|].
      apply elem_of_zremove_pair in He as [_ He].
      apply (proj1 (Forall_forall _ _) Hfresh e.1).
      apply list_elem_of_fmap. by exists e.
  - rewrite <- Hdel. apply CompleteTask_keeps_lanes.
Qed.

(** X22 on the pending task 3, a translation for model 1. *)
Lemma processNextTask_completes_witness :
  tasks_table (db (worker.processNextTask ex_worker ex_t1 ex_t2 ex_pending_stores).1)
    !! 3%N
  = Some (completed_row ex_t1 ex_t2 "翻译结果: hello" ex_pending_task)
  ∧ processing (redis (worker.processNextTask ex_worker ex_t1 ex_t2 ex_pending_stores).1)
    = [].
Proof.
  destruct (processNextTask_completes ex_worker ex_t1 ex_t2 ex_pending_stores
              (item_of_task ex_pending_task) ex_pending_task ex_model
              "翻译结果: hello") as (_ & Hrow & _ & _ & _).
  - reflexivity.
  - reflexivity.
  - reflexivity.
  - reflexivity.
  - reflexivity.
  - reflexivity.
  - reflexivity.
  - constructor.
  - split; [exact Hrow | reflexivity].
Defined.

(** X23: an entry whose task has no row is never acked.  While the store
    answers, [processNextTask] of a worker that gets such an entry returns
    the error of [GetTask], leaves the database as it is and the entry in the
    processing set, scored with the current second. *)
Theorem processNextTask_missing_row (w : worker.Worker) (started finished : time.Time)
    (s : Stores) (item : QueueItem) :
  healthy (redis s) →
  pick (worker.modelID w) (redis s)
    [HighPriorityQueue; MediumPriorityQueue; LowPriorityQueue] = Some item →
  tasks_table (db s) !! TaskID item = None →
  (worker.processNextTask w started finished s).2 = Some (Errorf "task not found")
  ∧ db (worker.processNextTask w started finished s).1 = db s
  ∧ zscore (processing (redis (worker.processNextTask w started finished s).1)) item
    = Some (time.Unix started).
Proof.
  intros H Hpick Hrow.
  destruct (DequeueTask_pick started (redis s) (worker.modelID w) item H Hpick)
    as (r1 & Hd & _ & _ & Hproc).
  unfold worker.processNextTask. rewrite Hd. cbn [db redis].
  unfold GetTask. rewrite Hrow. cbn [fst snd db redis].
  split; [done|]. split; [done|]. rewrite Hproc. apply zscore_zadd.
Qed.

(** X23 on the entry of task 3 when the task table is empty. *)
Lemma processNextTask_missing_row_witness :
  (worker.processNextTask ex_worker ex_t1 ex_t2
     (mkStores ex_db (redis ex_pending_stores))).2 = Some (Errorf "task not found")
  ∧ processing (redis (worker.processNextTask ex_worker ex_t1 ex_t2
                         (mkStores ex_db (redis ex_pending_stores))).1)
    = [(item_of_task ex_pending_task, 1005)].
Proof.
  destruct (processNextTask_missing_row ex_worker ex_t1 ex_t2
              (mkStores ex_db (redis ex_pending_stores))
              (item_of_task ex_pending_task)) as (Herr & _ & _).
  - reflexivity.
  - reflexivity.
  - reflexivity.
  - split; [exact Herr | reflexivity].
Defined.

(** X24: only a text generation can fail in the adapters.  The adapter
    invocation returns an error exactly when the task is a text generation
    and the model is an OpenAI model with no [api_key] or an empty one, a
    local model with no [host] or no [port] (or a null one), or a custom
    model. *)
Theorem executeTaskByType_fails_iff (task : models.Task.t) (model : models.Model.t) :
  (∃ msg, worker.executeTaskByType task model = inl msg)
  ↔ models.Task.Type_ task = "text-generation"
    ∧ match models.Model.Type_ model with
      | models.ModelTypeOpenAI =>
          models.Model.Config model !! "api_key" = None
          ∨ models.Model.Config model !! "api_key" = Some (models.JString EmptyString)
      | models.ModelTypeLocal =>
          default models.JNull (models.Model.Config model !! "host") = models.JNull
          ∨ default models.JNull (models.Model.Config model !! "port") = models.JNull
      | models.ModelTypeCustom => True
      end.
Proof.
  unfold worker.executeTaskByType.
  destruct (decide (models.Task.Type_ task = "text-generation")) as [Hty|Hty].
  2:{ split; [|by intros [? _]]. intros [msg Hmsg]. exfalso.
      repeat (destruct (decide _) in Hmsg); discriminate. }
  unfold worker.executeTextGeneration, worker.callOpenAIAPI, worker.callLocalAPI,
    models.Model.GetConfigValue.
  destruct (models.Model.Type_ model).
  - destruct (models.Model.Config model !! "api_key") as [v|] eqn:Hkey; simpl.
    + destruct (decide (v = models.JString EmptyString)) as [->|Hv].
      * rewrite bool_decide_eq_true_2 by done. split; [intros _|by eauto].
        split; [done|by right].
      * rewrite bool_decide_eq_false_2 by done. split; [by intros [? ?]|].
        intros [_ [?|[= ?]]]; done.
    + split; [intros _|by eauto]. split; [done|by left].
  - destruct (models.Model.Config model !! "host") as [h|];
      destruct (models.Model.Config model !! "port") as [p|]; simpl.
    + destruct (decide (h = models.JNull)) as [->|Hh].
      { rewrite bool_decide_eq_true_2 by done. simpl.
        split; [intros _|by eauto]. split; [done|by left]. }
      rewrite (bool_decide_eq_false_2 _ Hh). simpl.
      destruct (decide (p = models.JNull)) as [->|Hp].
      { rewrite bool_decide_eq_true_2 by done.
        split; [intros _|by eauto]. split; [done|by right]. }
      rewrite (bool_decide_eq_false_2 _ Hp).
      split; [by intros [? ?]|]. by intros [_ [?|?]].
    + rewrite orb_true_r. split; [intros _|by eauto]. split; [done|by right].
    + split; [intros _|by eauto]. split; [done|by left].
    + split; [intros _|by eauto]. split; [done|by left].
  - split; [intros _|by eauto]. done.
Qed.

Lemma length_substring_0 (n : nat) (s : string) :
  String.length (String.substring 0 n s) = Nat.min n (String.length s).
Proof.
  revert n. induction s as [|c s IH]; intros [|n]; simpl; try done.
  by rewrite IH.
Qed.

Lemma prefix_substring_0 (n : nat) (s : string) :
  String.prefix (String.substring 0 n s) s = true.
Proof.
  revert n. induction s as [|c s IH]; intros [|n]; simpl; try done.
  destruct (Ascii.ascii_dec c c); [apply IH | done].
Qed.

(** X25: a summary is a prefix of the input, cut at 50 bytes: the output of
    [executeSummarization] is the label followed by the first
    [min 50 (len input)] bytes of the input, whatever characters they
    encode. *)
Theorem executeSummarization_cut (task : models.Task.t) (model : models.Model.t) :
  ∃ cut,
    worker.executeSummarization task model = inr ("摘要: " +:+ cut)
    ∧ String.length cut = Nat.min 50 (String.length (models.Task.Input task))
    ∧ String.prefix cut (models.Task.Input task) = true.
Proof.
  unfold worker.executeSummarization. eexists. split; [reflexivity|]. split.
  - rewrite length_substring_0. lia.
  - apply prefix_substring_0.
Qed.

(** ** The model service *)

(** X26: a worker that registers and deregisters leaves the database as it
    was.  When the count of the model is not negative (or the model has no
    row), [IncrementWorkerCount] followed by [DecrementWorkerCount] gives
    back the same tables. *)
Theorem worker_count_round_trip (d : DB) (id : N) :
  (∀ m, models_table d !! id = Some m → 0 ≤ models.Model.CurrentWorkers m) →
  (DecrementWorkerCount (IncrementWorkerCount d id).1 id).1 = d.
Proof.
  intros Hpos. unfold DecrementWorkerCount, IncrementWorkerCount, alter_model.
  cbn [fst tasks_table tasks_auto_increment models_table task_logs_table].
  rewrite alter_alter_eq. rewrite alter_id; [by destruct d|].
  intros m Hm. specialize (Hpos m Hm). destruct m as [i n ty cfg st mw cw tr sr].
  simpl in *. destruct (Z.ltb_spec 0 (cw + 1)); [|lia].
  simpl. f_equal. lia.
Qed.

(** X26 at the full model. *)
Lemma worker_count_round_trip_witness :
  (DecrementWorkerCount (IncrementWorkerCount ex_full_db 1).1 1).1 = ex_full_db.
Proof.
  apply (worker_count_round_trip ex_full_db 1).
  intros m Hm. unfold ex_full_db in Hm. cbn [models_table] in Hm.
  apply lookup_singleton_Some in Hm as [_ <-]. simpl. lia.
Defined.

Lemma models_table_FailTask now d id msg :
  models_table (FailTask now d id msg).1 = models_table d.
Proof. unfold FailTask. cbn [fst]. by rewrite models_table_addTaskLog. Qed.

Lemma models_table_CompleteTask now d id out :
  models_table (services.CompleteTask now d id out).1 = models_table d.
Proof. unfold services.CompleteTask. cbn [fst]. by rewrite models_table_addTaskLog. Qed.

(** A round of a worker touches the models through one
    [IncrementRequestCount] at most. *)
Lemma processNextTask_models w started finished s :
  models_table (db (worker.processNextTask w started finished s).1)
  = models_table (db s)
  ∨ ∃ id success,
      models_table (db (worker.processNextTask w started finished s).1)
      = models_table (IncrementRequestCount (db s) id success).1.
Proof.
  unfold worker.processNextTask.
  destruct (DequeueTask started (redis s) (worker.modelID w)) as [r1 [err|[item|]]];
    [by left| |by left].
  cbn [db redis]. destruct (GetTask (db s) (TaskID item)) as [err|task]; [by left|].
  unfold worker.executeTask, worker.executeTask_start. cbn [db redis].
  destruct (StartTask started (db s) (models.Task.ID task)) as [d1 e1] eqn:Hstart.
  assert (models_table d1 = models_table (db s)) as Hd1.
  { replace d1 with (StartTask started (db s) (models.Task.ID task)).1
      by (by rewrite Hstart). apply models_table_StartTask. }
  destruct e1 as [err|]; [by left|].
  destruct (GetModel d1 (models.Task.ModelID task)) as [err|model].
  { left. cbn [fst db]. by rewrite models_table_FailTask. }
  unfold worker.executeTask_finish.
  destruct (worker.executeTaskByType task model) as [msg|out]; right.
  - exists (models.Model.ID model), false. cbn [fst db].
    unfold IncrementRequestCount, alter_model. cbn [fst models_table].
    by rewrite models_table_FailTask, Hd1.
  - exists (models.Model.ID model), true. cbn [fst db].
    unfold IncrementRequestCount, alter_model. cbn [fst models_table].
    by rewrite models_table_CompleteTask, Hd1.
Qed.

(** X27: the request counters of the models stay meaningful through the
    rounds of the workers.  If every model has no more successes than
    requests, and no negative count, the same holds after
    [processNextTask], whatever the round did; and no counter went down. *)
Theorem request_counters_kept (w : worker.Worker) (started finished : time.Time)
    (s : Stores) (id : N) (m' : models.Model.t) :
  (∀ k m, models_table (db s) !! k = Some m → counters_ok m) →
  models_table (db (worker.processNextTask w started finished s).1) !! id = Some m' →
  counters_ok m'
  ∧ ∃ m, models_table (db s) !! id = Some m
         ∧ models.Model.TotalRequests m ≤ models.Model.TotalRequests m'
         ∧ models.Model.SuccessRequests m ≤ models.Model.SuccessRequests m'.
Proof.
  intros Hok.
  destruct (processNextTask_models w started finished s) as [->|(k & b & ->)].
  - intros Hm. split; [by apply (Hok id)|]. exists m'. split; [done|]. lia.
  - unfold IncrementRequestCount, alter_model. cbn [fst models_table].
    destruct (decide (id = k)) as [->|Hne].
    + rewrite lookup_alter_eq.
      destruct (models_table (db s) !! k) as [m|] eqn:Hm; [|done].
      intros [= <-]. specialize (Hok k m Hm). unfold counters_ok in *.
      split.
      * destruct m, b; simpl in *; lia.
      * exists m. split; [done|]. destruct m, b; simpl in *; lia.
    + rewrite lookup_alter_ne by done. intros Hm.
      split; [by apply (Hok id)|]. exists m'. split; [done|]. lia.
Qed.

(** X27 on the round that completes the pending task 3. *)
Lemma request_counters_kept_witness :
  ∃ m', models_table
          (db (worker.processNextTask ex_worker ex_t1 ex_t2 ex_pending_stores).1)
          !! 1%N = Some m'
        ∧ counters_ok m'.
Proof.
  eexists. split; [reflexivity|].
  eapply (request_counters_kept ex_worker ex_t1 ex_t2 ex_pending_stores 1).
  - intros k m Hm.
    destruct (decide (k = 1%N)) as [->|Hne].
    + unfold ex_pending_stores in Hm. cbn [db models_table] in Hm.
      apply lookup_singleton_Some in Hm as [_ <-]. split; simpl; lia.
    + unfold ex_pending_stores in Hm. cbn [db models_table] in Hm.
      apply lookup_singleton_Some in Hm as [<- _]. done.
  - reflexivity.
Defined.

Lemma size_filter_0 (P : N * models.Task.t → Prop) `{!∀ x, Decision (P x)}
    (m : gmap N models.Task.t) :
  (∀ i x, m !! i = Some x → ¬ P (i, x)) → size (filter P m) = 0%nat.
Proof.
  intros Hnone. destruct (decide (size (filter P m) = 0%nat)) as [|Hne]; [done|].
  apply map_size_ne_0_lookup_1 in Hne as [i [x Hx]].
  apply map_lookup_filter_Some in Hx as [Hx HP]. by destruct (Hnone i x).
Qed.

(** X28: [DeleteModel] refuses with its own error exactly when a pending or
    running task of the model exists; and whenever it returns an error, its
    own or the database's, nothing was deleted. *)
Theorem DeleteModel_guard (fk : ReferentialAction) (d : DB) (id : N) :
  ((DeleteModel fk d id).2
   = Some (Errorf "cannot delete model with %d running/pending tasks")
   ↔ ∃ k t, tasks_table d !! k = Some t ∧ models.Task.ModelID t = id
            ∧ (models.Task.Status t = models.TaskStatusPending
               ∨ models.Task.Status t = models.TaskStatusRunning))
  ∧ ((DeleteModel fk d id).2 ≠ None → (DeleteModel fk d id).1 = d).
Proof.
  unfold DeleteModel.
  set (n := size (filter (blocks_delete id) (tasks_table d))).
  assert (n ≠ 0%nat
          ↔ ∃ k t, tasks_table d !! k = Some t ∧ models.Task.ModelID t = id
                   ∧ (models.Task.Status t = models.TaskStatusPending
                      ∨ models.Task.Status t = models.TaskStatusRunning)) as Hn.
  { unfold n. rewrite map_size_ne_0_lookup. split.
    - intros [k [t Ht]]. apply map_lookup_filter_Some in Ht as [Ht [Hm Hst]].
      by exists k, t.
    - intros (k & t & Ht & Hm & Hst). exists k, t.
      by apply map_lookup_filter_Some. }
  destruct (Z.ltb_spec 0 (Z.of_nat n)) as [Hpos|Hzero]; cbn [fst snd].
  - split; [|done]. split; [|done]. intros _. apply Hn. lia.
  - assert (¬ ∃ k t, tasks_table d !! k = Some t ∧ models.Task.ModelID t = id
                     ∧ (models.Task.Status t = models.TaskStatusPending
                        ∨ models.Task.Status t = models.TaskStatusRunning)) as Hnone.
    { intros Hex. apply Hn in Hex. lia. }
    assert (∀ res : DB * option error,
              res.2 ≠ Some (Errorf "cannot delete model with %d running/pending tasks") →
              (res.2 ≠ None → res.1 = d) →
              (res.2 = Some (Errorf "cannot delete model with %d running/pending tasks")
               ↔ ∃ k t, tasks_table d !! k = Some t ∧ models.Task.ModelID t = id
                        ∧ (models.Task.Status t = models.TaskStatusPending
                           ∨ models.Task.Status t = models.TaskStatusRunning))
              ∧ (res.2 ≠ None → res.1 = d)) as Hother.
    { intros res Hres Hkeep. split; [|done]. split; [done|]. intros Hex.
      by destruct Hnone. }
    destruct (models_table d !! id) as [m|];
      [|apply Hother; cbn [fst snd]; [intros [=] | done]].
    destruct fk;
      [apply Hother; cbn [fst snd]; [intros [=] | intros Herr; exfalso; by apply Herr]|].
    destruct (size (filter (λ kt : N * models.Task.t, models.Task.ModelID kt.2 = id)
                      (tasks_table d)));
      apply Hother; cbn [fst snd];
      [intros [=] | intros Herr; exfalso; by apply Herr | intros [=] | done].
Qed.

(** X29: deleting a model that no task refers to removes the model row and
    nothing else, under either action of the foreign keys. *)
Theorem DeleteModel_no_tasks (fk : ReferentialAction) (d : DB) (id : N) :
  (∀ k t, tasks_table d !! k = Some t → models.Task.ModelID t ≠ id) →
  DeleteModel fk d id
  = (mkDB (tasks_table d) (tasks_auto_increment d) (delete id (models_table d))
          (task_logs_table d), None).
Proof.
  intros Hnone. unfold DeleteModel.
  rewrite size_filter_0 by (intros k t Ht [Hm _]; by apply (Hnone k t)).
  cbn [Z.of_nat Z.ltb Z.compare].
  destruct (models_table d !! id) as [m|] eqn:Hm.
  - rewrite size_filter_0 by (intros k t Ht Hmid; by apply (Hnone k t)).
    destruct fk; [|done].
    rewrite map_filter_id by (intros k t Ht; by apply (Hnone k t)).
    rewrite filter_all; [done|].
    apply Forall_forall. intros l _. unfold log_survives.
    destruct (tasks_table d !! models.LogTaskID l) as [t|] eqn:Ht; [|done].
    by apply (Hnone (models.LogTaskID l) t).
  - rewrite delete_id by done. by destruct d.
Qed.

(** X29 on the database with model 1 and no task. *)
Lemma DeleteModel_no_tasks_witness :
  DeleteModel OnDeleteRestrict ex_db 1
  = (mkDB (tasks_table ex_db) (tasks_auto_increment ex_db)
          (delete 1%N (models_table ex_db)) (task_logs_table ex_db), None).
Proof.
  apply (DeleteModel_no_tasks OnDeleteRestrict ex_db 1).
  intros k t Ht. unfold ex_db in Ht. cbn [tasks_table] in Ht.
  rewrite lookup_empty in Ht. discriminate.
Defined.

(** ** The entry of a task that has no row *)

Lemma zremove_singleton (item : QueueItem) (score : Z) :
  zremove item [(item, score)] = [].
Proof.
  unfold zremove.
  rewrite (filter_cons_False (λ e : QueueItem * Z, e.1 ≠ item)); [done|].
  intros Hne. by apply Hne.
Qed.

Lemma filter_scored_singleton (lo hi : Z) (item : QueueItem) (score : Z) :
  lo ≤ score ∧ score ≤ hi →
  filter (scored_within lo hi) [(item, score)] = [(item, score)].
Proof. intros Hs. by rewrite (filter_cons_True (scored_within lo hi)). Qed.

(** X30: an entry whose task has no row comes back to where it started.  Take
    the store that holds this one entry in its lane.  A worker that may take it claims
    it and returns the error of [GetTask]; once the task timeout has passed
    the reaper moves it to the delayed set; once the retry delay has passed
    the promoter puts it back in its lane: the store is again the one the
    round started from, and the database was never written. *)
Theorem orphan_entry_cycles (w : worker.Worker) (cfg : config.QueueConfig)
    (t1 t1' t2 t3 : time.Time) (d : DB) (item : QueueItem) :
  acceptable (worker.modelID w) item = true →
  tasks_table d !! TaskID item = None →
  0 ≤ time.Unix t1 ∧ time.Unix t1 ≤ time.AddUnix t2 (- config.TaskTimeout cfg) →
  0 ≤ time.AddUnix t2 (config.RetryDelay cfg)
  ∧ time.AddUnix t2 (config.RetryDelay cfg) ≤ time.Unix t3 →
  let s1 := (worker.processNextTask w t1 t1' (mkStores d (only_entry item))).1 in
  let r2 := (CleanupStuckTasks cfg t2 (redis s1)).1 in
  let r3 := (ProcessDelayedTasks t3 r2).1 in
  db s1 = d
  ∧ processing (redis s1) = [(item, time.Unix t1)]
  ∧ delayed r2 = [(item, time.AddUnix t2 (config.RetryDelay cfg))]
  ∧ r3 = only_entry item.
Proof.
  intros Hacc Hrow Ht2 Ht3.
  assert (DequeueTask t1 (only_entry item) (worker.modelID w)
          = (mkRedis None [] [] [] [(item, time.Unix t1)] [], inr (Some item))) as Hd.
  { rewrite (DequeueTask_hit t1 (worker.modelID w) (getQueueKey (Priority item))
               (only_entry item) [] item).
    - unfold only_entry. by destruct (getQueueKey (Priority item)).
    - by apply healthy_set_lane.
    - unfold only_entry. destruct (getQueueKey (Priority item)); simpl;
        repeat (apply Forall_cons; split; [done|]); apply Forall_nil_2.
    - unfold only_entry. by destruct (getQueueKey (Priority item)).
    - by apply acceptable_true. }
  unfold worker.processNextTask. cbn [db redis]. rewrite Hd.
  unfold GetTask. cbn [db redis]. rewrite Hrow. cbn [fst db redis].
  split; [done|]. split; [done|].
  rewrite CleanupStuckTasks_healthy by done. cbn [fst processing].
  rewrite filter_scored_singleton by done. cbn [fmap list_fmap fst].
  rewrite CleanupStuckTasks_range_cons by done.
  cbn [CleanupStuckTasks_range processing delayed set_zset calls_left high medium low].
  rewrite zremove_singleton.
  change (zadd [] item (time.AddUnix t2 (config.RetryDelay cfg)))
    with [(item, time.AddUnix t2 (config.RetryDelay cfg))].
  split; [done|].
  unfold ProcessDelayedTasks. rewrite ZRangeByScore_healthy by done.
  cbn [zset delayed fst].
  rewrite filter_scored_singleton by done. cbn [fmap list_fmap fst].
  rewrite ProcessDelayedTasks_range_cons by done.
  cbn [ProcessDelayedTasks_range delayed]. rewrite zremove_singleton.
  unfold only_entry. by destruct (getQueueKey (Priority item)).
Qed.

(** X30 on the entry of task 3, with a timeout of 300 s and a retry delay of
    60 s. *)
Lemma orphan_entry_cycles_witness :
  (ProcessDelayedTasks (time.mkTime 1400000000000 "1970-01-01T00:23:20Z")
     (CleanupStuckTasks ex_cfg ex_t300
        (redis (worker.processNextTask ex_worker ex_t0 ex_t1
                  (mkStores ex_db (only_entry (item_of_task ex_pending_task)))).1)).1).1
  = only_entry (item_of_task ex_pending_task).
Proof.
  apply (orphan_entry_cycles ex_worker ex_cfg ex_t0 ex_t1 ex_t300
           (time.mkTime 1400000000000 "1970-01-01T00:23:20Z") ex_db
           (item_of_task ex_pending_task)).
  - reflexivity.
  - reflexivity.
  - vm_compute. split; discriminate.
  - vm_compute. split; discriminate.
Defined.
